(** * A comic-catalog gateway and its image proxy: model and properties

    The repository holds two serverless handlers:
    - the gateway ([api/proxy]), which forwards a request to the upstream
      catalog, rewrites image URLs inside JSON answers and passes every other
      answer through;
    - the image proxy ([api/proxy-img.js]), which fetches one image after
      checking the target against private addresses and an allow-list.

    JavaScript strings are modelled as [string]: one [ascii] per code unit,
    so the model covers the strings whose code units are below 256.  Numbers
    that the code only compares or counts (timestamps, sizes, status codes)
    are [Z].  The shared map of the rate limiter is a [gmap] that each
    handler takes and gives back; headers objects are [gmap]s from names to
    values.

    The platform around the handlers is a parameter of the model: the
    environment variables, [new URL], [JSON.parse], [fetch] and the clock.
    A handler is a function to the list of its observable actions (the
    fetch, [writeHead], [write], [end]).  Logging is left out, and a body
    stream delivers all of its chunks. *)

From Stdlib Require Import ZArith Ascii String List Bool Lia.
From stdpp Require Import base option list gmap strings fin_maps.

Set Warnings "-register-all".

Local Open Scope string_scope.
Local Open Scope Z_scope.

(** ** String primitives of the platform *)

Module Js.

(** [s.startsWith(p)] *)
Fixpoint startsWith (s p : string) : bool :=
  match p, s with
  | EmptyString, _ => true
  | String _ _, EmptyString => false
  | String b p', String a s' => Ascii.eqb a b && startsWith s' p'
  end.

(** [s.includes(p)]: [p] starts at some index of [s]. *)
Fixpoint includes (s p : string) : bool :=
  startsWith s p ||
  match s with
  | EmptyString => false
  | String _ s' => includes s' p
  end.

Fixpoint rev_onto (s acc : string) : string :=
  match s with
  | EmptyString => acc
  | String a s' => rev_onto s' (String a acc)
  end.

Definition reverse (s : string) : string := rev_onto s EmptyString.

(** [s.endsWith(p)] *)
Definition endsWith (s p : string) : bool :=
  startsWith (reverse s) (reverse p).

(** A value used as a condition: the empty string is falsy. *)
Definition truthy (s : string) : bool :=
  match s with EmptyString => false | String _ _ => true end.

(** [o || d] for an optional string [o]: [undefined], [null] and the empty
    string all give [d]. *)
Definition or_else (o : option string) (d : string) : string :=
  match o with
  | Some s => if truthy s then s else d
  | None => d
  end.

Definition code (a : ascii) : Z := Z.of_N (N_of_ascii a).

(** Writing aid for literals that contain double quotes: every ['] of [s]
    stands for a double quote. *)
Fixpoint with_dquotes (s : string) : string :=
  match s with
  | EmptyString => EmptyString
  | String a s' =>
      String (if Ascii.eqb a "'" then ascii_of_N 34 else a) (with_dquotes s')
  end.

Definition is_digit (a : ascii) : bool := (48 <=? code a) && (code a <=? 57).

Definition digit_val (a : ascii) : Z := code a - 48.

(** White space and line terminators that [parseInt] skips (those below
    256). *)
Definition is_space (a : ascii) : bool :=
  let c := code a in
  ((9 <=? c) && (c <=? 13)) || (c =? 32) || (c =? 160).

Fixpoint skip_spaces (s : string) : string :=
  match s with
  | String a s' => if is_space a then skip_spaces s' else s
  | EmptyString => s
  end.

Fixpoint digits_prefix (s : string) (acc : option Z) : option Z :=
  match s with
  | String a s' =>
      if is_digit a
      then digits_prefix s' (Some (10 * default 0 acc + digit_val a))
      else acc
  | EmptyString => acc
  end.

(** [parseInt(s, 10)]; [None] is NaN. *)
Definition parseInt (s : string) : option Z :=
  match skip_spaces s with
  | String "-" s' => Z.opp <$> digits_prefix s' None
  | String "+" s' => digits_prefix s' None
  | s' => digits_prefix s' None
  end.

Definition digit_char (d : Z) : ascii := ascii_of_N (Z.to_N (48 + d)).

Fixpoint decimal_digits (fuel : nat) (n : Z) (acc : string) : string :=
  match fuel with
  | O => acc
  | S fuel' =>
      let acc' := String (digit_char (n mod 10)) acc in
      if n <? 10 then acc' else decimal_digits fuel' (n / 10) acc'
  end.

(** [String(n)] for an integer [n]. *)
Definition of_int (n : Z) : string :=
  if n <? 0
  then String "-" (decimal_digits (S (Z.to_nat (Z.log2 (- n)))) (- n) EmptyString)
  else decimal_digits (S (Z.to_nat (Z.log2 n))) n EmptyString.

End Js.

(** ** Regular expressions

    The source uses regular-expression literals only through [test], so
    a pattern is modelled by the strings it accepts somewhere in the
    input.  The matcher is a backtracking one in continuation-passing
    style, as the language defines it. *)

Module Regex.

Inductive regex : Type :=
| Eps                                     (* empty pattern *)
| Chr (c : ascii)                         (* a literal character *)
| Range (lo hi : ascii)                   (* [lo-hi] *)
| Dot                                     (* . *)
| Seq (r1 r2 : regex)
| Alt (r1 r2 : regex)                     (* r1|r2 *)
| Rep (min : nat) (max : option nat) (r : regex)  (* r{min,max} *)
| Bol                                     (* ^ *)
| Eol.                                    (* $ *)

Definition Opt (r : regex) : regex := Rep 0 (Some 1%nat) r.
Definition Star (r : regex) : regex := Rep 0 None r.
Definition Plus (r : regex) : regex := Rep 1 None r.

(** The literal [s] as a sequence of characters. *)
Fixpoint Lit (s : string) : regex :=
  match s with
  | EmptyString => Eps
  | String a EmptyString => Chr a
  | String a s' => Seq (Chr a) (Lit s')
  end.

Definition upcase (a : ascii) : ascii :=
  let c := Js.code a in
  if (97 <=? c) && (c <=? 122) then ascii_of_N (Z.to_N (c - 32)) else a.

(** Character comparison; with the [i] flag both sides are canonicalised
    to upper case.  The literals of the patterns are ASCII, and an ASCII
    character is then only matched by itself or by its other case.  (The
    patterns with the flag have no character class.) *)
Definition chr_eq (ignore_case : bool) (c a : ascii) : bool :=
  if ignore_case then Ascii.eqb (upcase c) (upcase a) else Ascii.eqb c a.

Definition line_terminator (a : ascii) : bool :=
  (Js.code a =? 10) || (Js.code a =? 13).

Section Repeat.

(** The matcher of the repeated pattern and the continuation of the
    repetition. *)
Variable m : bool -> string -> (bool -> string -> bool) -> bool.
Variable k : bool -> string -> bool.

(** The repetition of a pattern at least [min] times; [budget] bounds the
    iterations that are still allowed.  Once [min] has reached zero an
    iteration that consumes nothing is a failure. *)
Fixpoint repeat_matcher (budget min : nat) (bol : bool) (s : string)
    {struct budget} : bool :=
  (match min with O => k bol s | S _ => false end) ||
  match budget with
  | O => false
  | S budget' =>
      m bol s (fun b' s' =>
        match min with
        | O => (String.length s' <? String.length s)%nat
        | S _ => true
        end && repeat_matcher budget' (Nat.pred min) b' s')
  end.

End Repeat.

(** [matcher i r bol s k]: some match of [r] at the front of [s] leaves a
    rest that [k] accepts.  [i] is the ignore-case flag; [bol] says
    whether [s] is the whole input (the position is index 0).  A pattern
    repeated without upper bound gets as many iterations as [min] plus the
    length of the input, which the iterations that consume something
    cannot exceed. *)
Fixpoint matcher (i : bool) (r : regex) (bol : bool) (s : string)
    (k : bool -> string -> bool) {struct r} : bool :=
  match r with
  | Eps => k bol s
  | Chr c =>
      match s with
      | String a s' => chr_eq i c a && k false s'
      | EmptyString => false
      end
  | Range lo hi =>
      match s with
      | String a s' =>
          (Js.code lo <=? Js.code a) && (Js.code a <=? Js.code hi) && k false s'
      | EmptyString => false
      end
  | Dot =>
      match s with
      | String a s' => negb (line_terminator a) && k false s'
      | EmptyString => false
      end
  | Seq r1 r2 => matcher i r1 bol s (fun b' s' => matcher i r2 b' s' k)
  | Alt r1 r2 => matcher i r1 bol s k || matcher i r2 bol s k
  | Rep min max r1 =>
      repeat_matcher (matcher i r1) k
        (match max with
         | Some n => n
         | None => (min + String.length s)%nat
         end) min bol s
  | Bol => bol && k bol s
  | Eol => match s with EmptyString => k bol s | String _ _ => false end
  end.

Fixpoint search (i : bool) (r : regex) (bol : bool) (s : string) : bool :=
  matcher i r bol s (fun _ _ => true) ||
  match s with
  | EmptyString => false
  | String _ s' => search i r false s'
  end.

(** [/r/.test(s)] and [/r/i.test(s)]: a match starting at some index. *)
Definition test (i : bool) (r : regex) (s : string) : bool :=
  search i r true s.

End Regex.

Import Regex.

(** ** The private-address check of the image proxy *)

Module SsrfGuard.

Definition digit : regex := Range "0" "9".

(** [/^(?:[0-9]{1,3}\.){3}[0-9]{1,3}$/] *)
Definition ipRegex : regex :=
  Seq Bol
   (Seq (Rep 3 (Some 3%nat) (Seq (Rep 1 (Some 3%nat) digit) (Chr ".")))
    (Seq (Rep 1 (Some 3%nat) digit) Eol)).

(** [(?:\.[0-9]+){0,2}\.[0-9]+] *)
Definition octets_tail : regex :=
  Seq (Rep 0 (Some 2%nat) (Seq (Chr ".") (Plus digit)))
      (Seq (Chr ".") (Plus digit)).

(** [/^(::1)|(127(?:\.[0-9]+){0,2}\.[0-9]+)|(10(?:\.[0-9]+){0,2}\.[0-9]+)|(172\.(?:1[6-9]|2[0-9]|3[0-1])(?:\.[0-9]+){0,2}\.[0-9]+)|(192\.168(?:\.[0-9]+){0,2}\.[0-9]+)$/]

    Alternation binds weaker than the anchors: [^] belongs to the first
    alternative only and [$] to the last one only. *)
Definition privateIpRegex : regex :=
  Alt (Seq Bol (Lit "::1"))
 (Alt (Seq (Lit "127") octets_tail)
 (Alt (Seq (Lit "10") octets_tail)
 (Alt (Seq (Lit "172.")
        (Seq (Alt (Seq (Chr "1") (Range "6" "9"))
             (Alt (Seq (Chr "2") (Range "0" "9"))
                  (Seq (Chr "3") (Range "0" "1"))))
             octets_tail))
      (Seq (Seq (Lit "192.168") octets_tail) Eol)))).

(** [isPrivateTarget(hostname)]: the two nested tests of the address, then
    the test of the internal names. *)
Definition isPrivateTarget (hostname : string) : bool :=
  if test false ipRegex hostname && test false privateIpRegex hostname
  then true
  else if String.eqb hostname "localhost"
          || Js.endsWith hostname ".local"
          || Js.endsWith hostname ".internal"
  then true
  else false.

End SsrfGuard.

(** ** JSON values *)

Module Json.

(** A parsed JSON value.  The fields of an object are its own properties
    in enumeration order; a parser gives them distinct keys.  Numbers
    are never inspected by the code; the model keeps the integers. *)
Inductive JsonValue : Type :=
| JNull
| JBool (b : bool)
| JNumber (n : Z)
| JString (s : string)
| JArray (items : list JsonValue)
| JObject (fields : list (string * JsonValue)).

Definition dquote_char : ascii := ascii_of_N 34.

Definition hex_lower (d : Z) : ascii :=
  if d <? 10 then Js.digit_char d else ascii_of_N (Z.to_N (87 + d)).

(** One code unit inside a JSON string literal. *)
Definition quote_char (a : ascii) : string :=
  let c := Js.code a in
  if c =? 8 then "\b"
  else if c =? 9 then "\t"
  else if c =? 10 then "\n"
  else if c =? 12 then "\f"
  else if c =? 13 then "\r"
  else if c =? 34 then String "\" (String dquote_char EmptyString)
  else if c =? 92 then "\\"
  else if c <? 32
       then "\u00" ++ String (hex_lower (c / 16)) (String (hex_lower (c mod 16)) EmptyString)
       else String a EmptyString.

Fixpoint quote_body (s : string) : string :=
  match s with
  | EmptyString => EmptyString
  | String a s' => quote_char a ++ quote_body s'
  end.

Definition quote (s : string) : string :=
  String dquote_char (quote_body s ++ String dquote_char EmptyString).

Fixpoint join (sep : string) (l : list string) : string :=
  match l with
  | [] => EmptyString
  | [x] => x
  | x :: l' => x ++ sep ++ join sep l'
  end.

(** [JSON.stringify(v)] without indentation. *)
Fixpoint stringify (v : JsonValue) : string :=
  match v with
  | JNull => "null"
  | JBool true => "true"
  | JBool false => "false"
  | JNumber n => Js.of_int n
  | JString s => quote s
  | JArray items => "[" ++ join "," (map stringify items) ++ "]"
  | JObject fields =>
      "{" ++ join "," (map (fun kv => quote (fst kv) ++ ":" ++ stringify (snd kv))
                         fields) ++ "}"
  end.

End Json.

Import Json.

(** ** The rate limiter

    Both files carry the same limiter: the same constants, the same map
    [ipRequestCounts] from a client identifier to the timestamps of its
    recent requests, and the same function [isRateLimited]. *)

Module RateLimiter.

Section Limiter.

(** [process.env.RATE_LIMIT_PER_MIN] *)
Variable env_RATE_LIMIT_PER_MIN : option string.

(** [None] is NaN, which no comparison satisfies. *)
Definition RATE_LIMIT_PER_MIN : option Z :=
  Js.parseInt (Js.or_else env_RATE_LIMIT_PER_MIN "60").

Definition RATE_LIMIT_WINDOW_MS : Z := 60 * 1000.

(** [n >= limit] where [limit] may be NaN *)
Definition reaches (n : Z) (limit : option Z) : bool :=
  match limit with
  | Some l => l <=? n
  | None => false
  end.

(** [isRateLimited(ip)] at the time [now] that [Date.now()] returns,
    on the map [ipRequestCounts]: the answer and the map afterwards. *)
Definition isRateLimited (ipRequestCounts : gmap string (list Z)) (now : Z)
    (ip : string) : bool * gmap string (list Z) :=
  let requests := default [] (ipRequestCounts !! ip) in
  let recentRequests :=
    List.filter (fun timestamp => now - timestamp <? RATE_LIMIT_WINDOW_MS)
                requests in
  if reaches (Z.of_nat (List.length recentRequests)) RATE_LIMIT_PER_MIN
  then (true, ipRequestCounts)
  else (false, <[ip := (recentRequests ++ [now])%list]> ipRequestCounts).

(** A sequence of calls, each with its identifier and its time, from
    the given map: the answers in order and the final map. *)
Fixpoint calls (ipRequestCounts : gmap string (list Z))
    (cs : list (string * Z)) : list bool * gmap string (list Z) :=
  match cs with
  | [] => ([], ipRequestCounts)
  | (ip, now) :: cs' =>
      let (limited, m) := isRateLimited ipRequestCounts now ip in
      let (answers, m') := calls m cs' in
      (limited :: answers, m')
  end.

End Limiter.

End RateLimiter.

(** ** Requests, responses and what a handler does *)

Module Http.

(** The request as the platform hands it to a handler.  [searchParams] is
    the query of [req.url] as [new URL(req.url, ...)] parses it. *)
Record Request : Type := {
  method : string;
  x_forwarded_for : option string;
  remoteAddress : option string;
  authorization : option string;
  content_type : option string;
  accept : option string;
  searchParams : gmap string string
}.

(** An upstream response: status, the two headers the code reads, and
    the body as the chunks its stream delivers ([None]: no body). *)
Record Response : Type := {
  status : Z;
  header_content_type : option string;
  header_content_length : option string;
  body : option (list string)
}.

Definition ok (r : Response) : bool := (200 <=? status r) && (status r <=? 299).

(** The call [fetch(url, options)]. *)
Record FetchCall : Type := {
  fetch_url : string;
  fetch_method : string;
  fetch_headers : gmap string string;
  fetch_body_streamed : bool
}.

(** [fetch] resolves to a response or rejects with an error message. *)
Inductive FetchResult : Type :=
| Resolved (r : Response)
| Rejected (message : string).

(** What [new URL(s)] exposes to the code. *)
Record URL : Type := {
  protocol : string;
  hostname : string;
  origin : string
}.

(** The observable actions of a handler, in order. *)
Inductive event : Type :=
| Fetch (c : FetchCall)
| WriteHead (code : Z) (headers : gmap string string)
| Write (chunk : string)
| End (data : option string)
| Uncaught.

(** What the client sees of a run: the status and the headers of the
    first [writeHead], and the body (the written chunks and the data of
    [end], if any was sent). *)
Fixpoint response_head (es : list event) : option (Z * gmap string string) :=
  match es with
  | WriteHead code headers :: _ => Some (code, headers)
  | _ :: es' => response_head es'
  | [] => None
  end.

Definition response_status (es : list event) : option Z :=
  fst <$> response_head es.

Definition response_header (name : string) (es : list event) : option string :=
  response_head es ≫= λ h, snd h !! name.

Fixpoint response_body (es : list event) : string :=
  match es with
  | Write chunk :: es' => chunk ++ response_body es'
  | End (Some data) :: es' => data ++ response_body es'
  | _ :: es' => response_body es'
  | [] => EmptyString
  end.

Definition is_fetch (e : event) : bool :=
  match e with Fetch _ => true | _ => false end.

(** [getIp(req)] *)
Definition getIp (req : Request) : string :=
  match x_forwarded_for req with
  | Some s => if Js.truthy s then s else Js.or_else (remoteAddress req) "unknown"
  | None => Js.or_else (remoteAddress req) "unknown"
  end.

(** Piping a body into the response: one [res.write] per chunk, then
    [res.end()]. *)
Definition pipe (b : option (list string)) : list event :=
  match b with
  | Some chunks => (map Write chunks ++ [End None])%list
  | None => [End None]
  end.

End Http.

Import Http.

(** ** The gateway ([api/proxy]) *)

Module Gateway.

Definition UPSTREAM_BASE : string := "https://www.sankavollerei.com/comic".

Definition CORS_HEADERS : gmap string string :=
  list_to_map
    [("Access-Control-Allow-Origin", "*");
     ("Access-Control-Allow-Methods", "GET, POST, OPTIONS");
     ("Access-Control-Allow-Headers", "Content-Type, Authorization, Origin, Accept")].

(** [/\.(jpg|jpeg|png|webp|avif|gif|svg)(\?ANY)?$/i], where [ANY] stands
    for the dot under a star. *)
Definition IMAGE_EXTENSIONS : regex :=
  Seq (Chr ".")
   (Seq (Alt (Lit "jpg") (Alt (Lit "jpeg") (Alt (Lit "png") (Alt (Lit "webp")
         (Alt (Lit "avif") (Alt (Lit "gif") (Lit "svg")))))))
    (Seq (Opt (Seq (Chr "?") (Star Dot))) Eol)).

(** [/(\/uploads\/|\/wp-content\/uploads\/)/i] *)
Definition UPLOAD_HEURISTICS : regex :=
  Alt (Lit "/uploads/") (Lit "/wp-content/uploads/").

Definition hex_upper (d : Z) : ascii :=
  if d <? 10 then Js.digit_char d else ascii_of_N (Z.to_N (55 + d)).

Definition percent (byte : Z) : string :=
  String "%" (String (hex_upper (byte / 16)) (String (hex_upper (byte mod 16)) EmptyString)).

(** Characters that [encodeURIComponent] keeps: letters, digits and
    [- _ . ! ~ * ' ( )]. *)
Definition unreserved (a : ascii) : bool :=
  let c := Js.code a in
  ((65 <=? c) && (c <=? 90)) || ((97 <=? c) && (c <=? 122)) || Js.is_digit a
  || (c =? 45) || (c =? 95) || (c =? 46) || (c =? 33) || (c =? 126)
  || (c =? 42) || (c =? 39) || (c =? 40) || (c =? 41).

(** [encodeURIComponent(s)]: every other code unit is replaced by the
    escapes of its UTF-8 bytes (one byte below 128, two bytes below 256). *)
Fixpoint encodeURIComponent (s : string) : string :=
  match s with
  | EmptyString => EmptyString
  | String a s' =>
      let c := Js.code a in
      (if unreserved a then String a EmptyString
       else if c <? 128 then percent c
       else percent (192 + c / 64) ++ percent (128 + c mod 64))
      ++ encodeURIComponent s'
  end.

(** [Buffer.byteLength(s, 'utf8')] *)
Fixpoint byteLength (s : string) : Z :=
  match s with
  | EmptyString => 0
  | String a s' => (if Js.code a <? 128 then 1 else 2) + byteLength s'
  end.

Section Handler.

(** The configuration and the platform around the handler. *)
Variable env_MAX_JSON_SIZE_BYTES : option string.
Variable env_RATE_LIMIT_PER_MIN : option string.
(** [new URL(s)]; [None] when the constructor throws. *)
Variable URL_new : string -> option URL.
(** [JSON.parse(text)]; [None] when it throws. *)
Variable JSON_parse : string -> option JsonValue.
Variable fetch : FetchCall -> FetchResult.
(** The message of the error that [new Response] throws. *)
Variable Response_error_message : string.

Definition MAX_JSON_SIZE_BYTES : option Z :=
  Js.parseInt (Js.or_else env_MAX_JSON_SIZE_BYTES "2097152").

(** [size > MAX_JSON_SIZE_BYTES], false when the limit is NaN *)
Definition exceeds (size : Z) (limit : option Z) : bool :=
  match limit with
  | Some l => l <? size
  | None => false
  end.

Definition is_absolute (originalUrl : string) : bool :=
  Js.startsWith originalUrl "http://" || Js.startsWith originalUrl "https://".

(** The value of [originalUrl] after step 1 of the string rule. *)
Definition originalUrl (upstreamOrigin value : string) : string :=
  if Js.startsWith value "/" then upstreamOrigin ++ value else value.

(** The value of [needsRewrite] after steps 1 and 2 of the string rule. *)
Definition needsRewrite (upstreamOrigin value : string) : bool :=
  let needsRewrite := false in
  let needsRewrite :=
    if Js.startsWith value "/"
    then if test true UPLOAD_HEURISTICS (upstreamOrigin ++ value)
         then true else needsRewrite
    else needsRewrite in
  let originalUrl := originalUrl upstreamOrigin value in
  if is_absolute originalUrl
  then if test true IMAGE_EXTENSIONS originalUrl
          || test true UPLOAD_HEURISTICS originalUrl
       then true else needsRewrite
  else needsRewrite.

(** What [obj[key]] holds after the string branch ran on the string
    [value]. *)
Definition rewriteString (upstreamOrigin value : string) : string :=
  if needsRewrite upstreamOrigin value
  then match URL_new (originalUrl upstreamOrigin value) with
       | Some _ =>
           "/api/proxy-img?url="
           ++ encodeURIComponent (originalUrl upstreamOrigin value)
       | None => value
       end
  else value.

(** [recursiveRewrite(obj, upstreamOrigin)]; the result is the tree
    that [obj] has become.  An array hands each item to the function
    itself; an object looks at each of its values. *)
Fixpoint recursiveRewrite (obj : JsonValue) (upstreamOrigin : string)
    : JsonValue :=
  match obj with
  | JArray items =>
      JArray (map (fun item => recursiveRewrite item upstreamOrigin) items)
  | JObject fields =>
      JObject
        (map (fun kv =>
                (fst kv,
                 match snd kv with
                 | JString value => JString (rewriteString upstreamOrigin value)
                 | JArray _ | JObject _ =>
                     recursiveRewrite (snd kv) upstreamOrigin
                 | value => value
                 end))
             fields)
  | _ => obj
  end.

(** [new Response(text, init)] with a fetched response as [init]: the
    status and the headers are taken over, the body is [text]; the
    constructor throws for a status outside 200..599 and for a status
    that admits no body. *)
Definition Response_new (text : string) (init : Response) : option Response :=
  if negb ((200 <=? status init) && (status init <=? 599))
     || (status init =? 204) || (status init =? 205) || (status init =? 304)
  then None
  else Some {| status := status init;
               header_content_type :=
                 match header_content_type init with
                 | Some c => Some c
                 | None => Some "text/plain;charset=UTF-8"
                 end;
               header_content_length := header_content_length init;
               body := Some [text] |}.

(** [streamPassthrough(upstreamResponse, res, extraHeaders)] *)
Definition streamPassthrough (upstreamResponse : Response)
    (extraHeaders : gmap string string) : list event :=
  let headers := extraHeaders ∪ CORS_HEADERS in
  let headers :=
    <["Content-Type" :=
        Js.or_else (header_content_type upstreamResponse)
                   "application/octet-stream"]> headers in
  let headers :=
    match header_content_length upstreamResponse with
    | Some l => <["Content-Length" := l]> headers
    | None => headers
    end in
  WriteHead (status upstreamResponse) headers :: pipe (body upstreamResponse).

Definition json_headers : gmap string string :=
  <["Content-Type" := "application/json"]> CORS_HEADERS.

Definition error_body (message : string) (code : Z)
    (more : list (string * JsonValue)) : string :=
  stringify (JObject ([("success", JBool false); ("error", JString message);
                       ("code", JNumber code)] ++ more)%list).

(** The [catch] clause around the upstream exchange. *)
Definition fetch_failed (message : string) : list event :=
  [WriteHead 502 json_headers;
   End (Some (error_body "Failed to fetch from upstream" 502
                [("details", JString message)]))].

(** [upstreamResponse.text()] *)
Definition text_of (r : Response) : string :=
  match body r with
  | Some chunks => String.concat EmptyString chunks
  | None => EmptyString
  end.

(** The handler from the upstream response on (steps 8 to 12). *)
Definition deliver (upstreamOrigin : string) (upstreamResponse : Response)
    : list event :=
  let upstreamContentType :=
    Js.or_else (header_content_type upstreamResponse) EmptyString in
  if Js.includes upstreamContentType "application/json" then
    let text := text_of upstreamResponse in
    let size := byteLength text in
    if exceeds size MAX_JSON_SIZE_BYTES then
      [WriteHead 502 json_headers;
       End (Some (error_body "Upstream response too large to parse" 502
                    [("rewrote", JBool false)]))]
    else
      match JSON_parse text with
      | None =>
          match Response_new text upstreamResponse with
          | Some r =>
              streamPassthrough r
                {["Content-Type" := "text/plain; charset=utf-8"]}
          | None => fetch_failed Response_error_message
          end
      | Some data =>
          [WriteHead (status upstreamResponse)
             (<["Content-Type" := "application/json; charset=utf-8"]>
                CORS_HEADERS);
           End (Some (stringify (recursiveRewrite data upstreamOrigin)))]
      end
  else streamPassthrough upstreamResponse ∅.

(** The [fetch] call of steps 5 and 6. *)
Definition upstream_call (req : Request) (targetUrl : string) : FetchCall :=
  let headers : gmap string string :=
    {["User-Agent" := "KynayMicProxy/1.0";
      "Accept" := "application/json, text/*, */*"]} in
  let headers :=
    match authorization req with
    | Some a => if Js.truthy a then <["Authorization" := a]> headers else headers
    | None => headers
    end in
  let with_body :=
    negb (String.eqb (method req) "GET") && negb (String.eqb (method req) "HEAD")
    && Js.truthy (Js.or_else (content_type req) EmptyString) in
  {| fetch_url := targetUrl;
     fetch_method := method req;
     fetch_headers :=
       if with_body
       then <["Content-Type" := Js.or_else (content_type req) EmptyString]> headers
       else headers;
     fetch_body_streamed := with_body |}.

(** [handler(req, res)] at time [now] on the rate-limit map: the map
    afterwards and what was done. *)
Definition handler (ipRequestCounts : gmap string (list Z)) (now : Z)
    (req : Request) : gmap string (list Z) * list event :=
  if String.eqb (method req) "OPTIONS" then
    (ipRequestCounts, [WriteHead 204 CORS_HEADERS; End None])
  else
    let ip := getIp req in
    let (limited, counts) :=
      RateLimiter.isRateLimited env_RATE_LIMIT_PER_MIN ipRequestCounts now ip in
    pair counts
    (if limited then
      [WriteHead 429 json_headers;
       End (Some (error_body "Rate limit exceeded" 429 []))]
    else
      let restPath := Js.or_else (searchParams req !! "rest") EmptyString in
      if negb (Js.truthy restPath) || negb (Js.startsWith restPath "komikstation/")
      then
        [WriteHead 400 json_headers;
         End (Some (error_body "Invalid endpoint. Must start with komikstation/"
                      400 []))]
      else
        let targetUrl := UPSTREAM_BASE ++ "/" ++ restPath in
        match URL_new targetUrl with
        | None => [Uncaught]
        | Some u =>
            let upstreamOrigin := origin u in
            let call := upstream_call req targetUrl in
            Fetch call ::
            match fetch call with
            | Rejected message => fetch_failed message
            | Resolved upstreamResponse => deliver upstreamOrigin upstreamResponse
            end
        end).

End Handler.

End Gateway.

(** ** The image proxy ([api/proxy-img.js]) *)

Module ImageProxy.

Definition PLACEHOLDER_URL : string :=
  "https://placehold.co/300x400/FFF9E0/000?text=Image+Error".

Definition CORS_HEADERS : gmap string string :=
  list_to_map
    [("Access-Control-Allow-Origin", "*");
     ("Access-Control-Allow-Methods", "GET, OPTIONS");
     ("Access-Control-Allow-Headers", "Content-Type, Authorization, Origin, Accept")].

(** [s.split(',')] *)
Fixpoint split_comma (s : string) (current : string) : list string :=
  match s with
  | EmptyString => [Js.reverse current]
  | String a s' =>
      if Ascii.eqb a ","
      then Js.reverse current :: split_comma s' EmptyString
      else split_comma s' (String a current)
  end.

(** [sendError(req, res, statusCode, message)] *)
Definition sendError (req : Request) (statusCode : Z) (message : string)
    : list event :=
  let acceptHeader := Js.or_else (accept req) EmptyString in
  if Js.includes acceptHeader "image/"
     && negb (Js.includes acceptHeader "application/json")
  then [WriteHead 302 (<["Location" := PLACEHOLDER_URL]> CORS_HEADERS); End None]
  else [WriteHead statusCode
          (<["Content-Type" := "application/json"]> CORS_HEADERS);
        End (Some (stringify (JObject [("success", JBool false);
                                       ("error", JString message);
                                       ("code", JNumber statusCode)])))].

Section Handler.

Variable env_IMAGE_MAX_BYTES : option string.
Variable env_ALLOWED_HOSTS : option string.
Variable env_RATE_LIMIT_PER_MIN : option string.
(** [new URL(s)]; [None] when the constructor throws. *)
Variable URL_new : string -> option URL.
Variable fetch : FetchCall -> FetchResult.

Definition IMAGE_MAX_BYTES : option Z :=
  Js.parseInt (Js.or_else env_IMAGE_MAX_BYTES "10485760").

Definition ALLOWED_HOSTS_CSV : string :=
  Js.or_else env_ALLOWED_HOSTS EmptyString.

(** [None] is [null]: every public host is allowed. *)
Definition ALLOWED_HOSTS : option (gset string) :=
  if Js.truthy ALLOWED_HOSTS_CSV
  then Some (list_to_set (split_comma ALLOWED_HOSTS_CSV EmptyString))
  else None.

Definition not_allowed (hostname : string) : bool :=
  match ALLOWED_HOSTS with
  | Some hosts => negb (bool_decide (hostname ∈ hosts))
  | None => false
  end.

(** [contentLength && parseInt(contentLength, 10) > IMAGE_MAX_BYTES] *)
Definition too_large (contentLength : option string) : bool :=
  match contentLength with
  | Some l =>
      Js.truthy l &&
      match Js.parseInt l, IMAGE_MAX_BYTES with
      | Some n, Some m => m <? n
      | _, _ => false
      end
  | None => false
  end.

Definition upstream_call (targetUrl : string) : FetchCall :=
  {| fetch_url := targetUrl;
     fetch_method := "GET";
     fetch_headers :=
       {["User-Agent" := "KynayMicProxy/1.0"; "Accept" := "image/*, */*"]};
     fetch_body_streamed := false |}.

(** Steps 7 to 10: the handler from the upstream response on. *)
Definition deliver (req : Request) (upstreamResponse : Response) : list event :=
  if negb (ok upstreamResponse) then
    sendError req (status upstreamResponse)
      ("Upstream failed with status " ++ Js.of_int (status upstreamResponse))
  else
    let contentLength := header_content_length upstreamResponse in
    if too_large contentLength then
      sendError req 413
        ("Image size (" ++ default EmptyString contentLength
         ++ " bytes) exceeds limit ("
         ++ default "NaN" (Js.of_int <$> IMAGE_MAX_BYTES) ++ " bytes)")
    else
      let headers :=
        <["Cache-Control" := "public, max-age=86400"]>
          (<["Content-Type" :=
               Js.or_else (header_content_type upstreamResponse)
                          "application/octet-stream"]> CORS_HEADERS) in
      let headers :=
        match contentLength with
        | Some l => if Js.truthy l then <["Content-Length" := l]> headers
                    else headers
        | None => headers
        end in
      WriteHead 200 headers :: pipe (body upstreamResponse).

(** [handler(req, res)] at time [now] on the rate-limit map: the map
    afterwards and what was done. *)
Definition handler (ipRequestCounts : gmap string (list Z)) (now : Z)
    (req : Request) : gmap string (list Z) * list event :=
  if String.eqb (method req) "OPTIONS" then
    (ipRequestCounts, [WriteHead 204 CORS_HEADERS; End None])
  else if negb (String.eqb (method req) "GET") then
    (ipRequestCounts, [WriteHead 405 CORS_HEADERS; End (Some "Method Not Allowed")])
  else
    let ip := getIp req in
    let (limited, counts) :=
      RateLimiter.isRateLimited env_RATE_LIMIT_PER_MIN ipRequestCounts now ip in
    pair counts
    (if limited then sendError req 429 "Rate limit exceeded"
     else
       let targetUrl := Js.or_else (searchParams req !! "url") EmptyString in
       if negb (Js.truthy targetUrl) then
         sendError req 400 "Missing url query parameter"
       else
         match URL_new targetUrl with
         | None => sendError req 400 "Invalid URL format"
         | Some urlObj =>
             if negb (String.eqb (protocol urlObj) "http:")
                && negb (String.eqb (protocol urlObj) "https:")
             then sendError req 400
                    "Invalid protocol. Only http and https are allowed."
             else if SsrfGuard.isPrivateTarget (hostname urlObj)
             then sendError req 400
                    "Target URL is internal or private. Request blocked."
             else if not_allowed (hostname urlObj)
             then sendError req 403 "Hostname not allowed."
             else
               let call := upstream_call targetUrl in
               Fetch call ::
               match fetch call with
               | Rejected message =>
                   sendError req 502
                     ("Failed to fetch upstream image: " ++ message)
               | Resolved upstreamResponse => deliver req upstreamResponse
               end
         end).

End Handler.

End ImageProxy.

(** ** Vocabulary of the properties and sample data *)

(** The timestamps of [ip] that lie within the trailing window at [now]. *)
Definition recent (m : gmap string (list Z)) (now : Z) (ip : string) : list Z :=
  List.filter (fun timestamp => now - timestamp <? RateLimiter.RATE_LIMIT_WINDOW_MS)
              (default [] (m !! ip)).

(** Every stored window holds at most [L] timestamps. *)
Definition bounded (L : Z) (m : gmap string (list Z)) : Prop :=
  forall ip l, m !! ip = Some l -> Z.of_nat (List.length l) <= L.

(** The upstream of the gateway, as [new URL] sees every target that the
    gateway builds from [UPSTREAM_BASE]. *)
Definition upstream_url : URL :=
  {| protocol := "https:";
     hostname := "www.sankavollerei.com";
     origin := "https://www.sankavollerei.com" |}.

(** A request for the catalog home page through the gateway. *)
Definition home_request : Request :=
  {| method := "GET";
     x_forwarded_for := Some "203.0.113.7";
     remoteAddress := None;
     authorization := None;
     content_type := None;
     accept := Some "application/json";
     searchParams := {["rest" := "komikstation/home"]} |}.

(** An upstream answer that announces JSON and carries an HTML page. *)
Definition html_as_json : Response :=
  {| status := 200;
     header_content_type := Some "application/json";
     header_content_length := None;
     body := Some ["<html>Service unavailable</html>"] |}.

(** An upstream answer that announces JSON and carries 24 bytes. *)
Definition json_of_24_bytes : Response :=
  {| status := 200;
     header_content_type := Some "application/json; charset=utf-8";
     header_content_length := None;
     body := Some [Js.with_dquotes "{'title':"; Js.with_dquotes "'Solo Leveling'}"] |}.

(** [p] is a prefix of [s] up to the case of ASCII letters. *)
Fixpoint starts_with_ci (s p : string) {struct p} : bool :=
  match p, s with
  | EmptyString, _ => true
  | String _ _, EmptyString => false
  | String b p', String a s' => chr_eq true b a && starts_with_ci s' p'
  end.

(** [s] contains [p] up to the case of ASCII letters. *)
Fixpoint contains_ci (s p : string) : bool :=
  starts_with_ci s p ||
  match s with
  | EmptyString => false
  | String _ s' => contains_ci s' p
  end.

(** The text of the address [a.b.c.d]. *)
Definition dotted_quad (a b c d : Z) : string :=
  Js.of_int a ++ "." ++ Js.of_int b ++ "." ++ Js.of_int c ++ "." ++ Js.of_int d.

(** The private and loopback blocks in the words of the specification:
    127.0.0.0/8, 10.0.0.0/8, 172.16.0.0/12 and 192.168.0.0/16. *)
Definition in_private_ranges (a b c d : Z) : bool :=
  (a =? 127) || (a =? 10) || ((a =? 172) && (16 <=? b) && (b <=? 31))
  || ((a =? 192) && (b =? 168)).

(** The text of one octet: one to three decimal digits. *)
Fixpoint all_digits (s : string) : bool :=
  match s with
  | EmptyString => true
  | String a s' => Js.is_digit a && all_digits s'
  end.

Definition octet_text (s : string) : bool :=
  all_digits s && (1 <=? String.length s)%nat && (String.length s <=? 3)%nat.

(** The client expects an image and does not accept JSON. *)
Definition expects_image (req : Request) : bool :=
  Js.includes (Js.or_else (accept req) EmptyString) "image/"
  && negb (Js.includes (Js.or_else (accept req) EmptyString) "application/json").

(** A request to the image proxy for [url], as an image tag of a browser
    sends it. *)
Definition image_request (url : string) : Request :=
  {| method := "GET";
     x_forwarded_for := Some "203.0.113.7";
     remoteAddress := None;
     authorization := None;
     content_type := None;
     accept := Some "image/avif,image/webp,*/*";
     searchParams := {["url" := url]} |}.

(** What [new URL] exposes of "http://10.0.0.5/x.png". *)
Definition internal_url : URL :=
  {| protocol := "http:"; hostname := "10.0.0.5"; origin := "http://10.0.0.5" |}.

(** What [new URL] exposes of "https://cdn.example.com/covers/a.jpg". *)
Definition cdn_url : URL :=
  {| protocol := "https:";
     hostname := "cdn.example.com";
     origin := "https://cdn.example.com" |}.

(** A partial-content answer of an image host. *)
Definition partial_image : Response :=
  {| status := 206;
     header_content_type := Some "image/jpeg";
     header_content_length := Some "5";
     body := Some ["abc"; "de"] |}.

(** ** Vocabulary of the further properties *)

(** The call times never go back: each is at least [cur] and at least the
    one before. *)
Fixpoint times_nondecreasing (cur : Z) (cs : list (string * Z)) : Prop :=
  match cs with
  | [] => True
  | (_, now) :: cs' => cur <= now /\ times_nondecreasing now cs'
  end.

(** The times of the calls of [cs] that were made for [ip] and answered
    false (let through), in the run that starts from the map [m]. *)
Fixpoint granted (env : option string) (m : gmap string (list Z))
    (cs : list (string * Z)) (ip : string) : list Z :=
  match cs with
  | [] => []
  | (ip', now) :: cs' =>
      let answer := RateLimiter.isRateLimited env m now ip' in
      ((if negb (fst answer) && String.eqb ip' ip then [now] else [])
       ++ granted env (snd answer) cs' ip)%list
  end.

(** [t] lies in the window of 60 s that ends at [T]. *)
Definition in_window (T t : Z) : bool :=
  (T - t <? RateLimiter.RATE_LIMIT_WINDOW_MS) && (t <=? T).

(** The history [A] of one client and its stored window agree on every
    window that ends at [cur] or later; the history lies in the past and
    holds at most [L] times in any window. *)
Definition history_ok (L : Z) (ip : string) (m : gmap string (list Z))
    (A : list Z) (cur : Z) : Prop :=
  (forall now, cur <= now ->
     List.filter (fun t => now - t <? RateLimiter.RATE_LIMIT_WINDOW_MS) A = recent m now ip)
  /\ Forall (fun t => t <= cur) A
  /\ (forall T, Z.of_nat (List.length (List.filter (in_window T) A)) <= L).

(** The tree with every string blanked: what is left is the nesting, the
    keys and their order, the lengths of the arrays and the values that are
    not strings. *)
Fixpoint skeleton (t : JsonValue) : JsonValue :=
  match t with
  | JString _ => JString EmptyString
  | JArray items => JArray (map skeleton items)
  | JObject fields => JObject (map (fun kv => (fst kv, skeleton (snd kv))) fields)
  | _ => t
  end.

(** The strings that are values of properties, at any depth, in order. *)
Fixpoint property_strings (t : JsonValue) : list string :=
  match t with
  | JArray items => concat (map property_strings items)
  | JObject fields =>
      concat (map (fun kv =>
                     match snd kv with
                     | JString s => [s]
                     | _ => property_strings (snd kv)
                     end) fields)
  | _ => []
  end.

(** The strings that are elements of arrays, at any depth, in order. *)
Fixpoint element_strings (t : JsonValue) : list string :=
  match t with
  | JArray items =>
      concat (map (fun v =>
                     match v with
                     | JString s => [s]
                     | _ => element_strings v
                     end) items)
  | JObject fields => concat (map (fun kv => element_strings (snd kv)) fields)
  | _ => []
  end.

(** A catalog answer: a cover as a property, page images as elements of an
    array, and chapters as objects inside an array. *)
Definition catalog_tree : JsonValue :=
  JObject
    [("title", JString "Solo Leveling");
     ("cover", JString "/uploads/solo.jpg");
     ("pages", JArray [JString "https://cdn.example.com/p/1.png"]);
     ("chapters",
      JArray [JObject [("number", JNumber 1);
                       ("thumb", JString "https://cdn.example.com/t/1.webp")]])].

(** Every character of [s] satisfies [p]. *)
Fixpoint all_chars (p : ascii -> bool) (s : string) : bool :=
  match s with
  | EmptyString => true
  | String a s' => p a && all_chars p s'
  end.

(** The characters that a query value may hold as they are, and the percent
    sign of an escape. *)
Definition url_safe (a : ascii) : bool :=
  Gateway.unreserved a || Ascii.eqb a "%".

Definition hex_value (a : ascii) : Z :=
  let c := Js.code a in
  if Js.is_digit a then c - 48 else c - 55.

(** Percent-decoding of what [encodeURIComponent] produces: an escape below
    128 is one code unit, an escape from 192 on starts a pair. *)
Fixpoint percent_decode (s : string) : string :=
  match s with
  | EmptyString => EmptyString
  | String a rest =>
      if Ascii.eqb a "%" then
        match rest with
        | String h1 (String h2 rest2) =>
            let b := 16 * hex_value h1 + hex_value h2 in
            if b <? 128 then String (ascii_of_N (Z.to_N b)) (percent_decode rest2)
            else
              match rest2 with
              | String _ (String h3 (String h4 rest4)) =>
                  let b2 := 16 * hex_value h3 + hex_value h4 in
                  String (ascii_of_N (Z.to_N ((b - 192) * 64 + (b2 - 128))))
                         (percent_decode rest4)
              | _ => s
              end
        | _ => s
        end
      else String a (percent_decode rest)
  end.

(** [s] with its ASCII letters in upper case. *)
Fixpoint uppercase (s : string) : string :=
  match s with
  | EmptyString => EmptyString
  | String a s' => String (upcase a) (uppercase s')
  end.

(** What is left of [s] after the prefix [p], compared without regard to
    the case of the letters. *)
Fixpoint strip_ci (s p : string) {struct p} : option string :=
  match p, s with
  | EmptyString, _ => Some s
  | String _ _, EmptyString => None
  | String b p', String a s' => if chr_eq true b a then strip_ci s' p' else None
  end.

Definition image_extensions : list string :=
  ["jpg"; "jpeg"; "png"; "webp"; "avif"; "gif"; "svg"].

Definition not_line_terminator (a : ascii) : bool := negb (line_terminator a).

(** The end of the input, or a question mark and a query without line
    terminators up to the end. *)
Definition query_or_end (rest : string) : bool :=
  match rest with
  | EmptyString => true
  | String a q => chr_eq true "?" a && all_chars not_line_terminator q
  end.

(** At some dot of [s] an image extension follows, and after it the
    input ends or a query runs to the end. *)
Fixpoint ends_like_image (s : string) : bool :=
  match s with
  | EmptyString => false
  | String a s' =>
      (chr_eq true "." a
       && existsb (fun e => match strip_ci s' e with
                            | Some rest => query_or_end rest
                            | None => false
                            end) image_extensions)
      || ends_like_image s'
  end.

(** Chunks written one after the other, then one [end]. *)
Fixpoint body_then_end (es : list event) : bool :=
  match es with
  | [End _] => true
  | Write _ :: es' => body_then_end es'
  | _ => false
  end.

(** A response as the protocol wants it: at most one fetch, before
    anything is sent; then one [writeHead]; then the body; then one [end],
    after which nothing happens. *)
Definition well_formed_response (es : list event) : bool :=
  match es with
  | Fetch _ :: WriteHead _ _ :: es' => body_then_end es'
  | WriteHead _ _ :: es' => body_then_end es'
  | _ => false
  end.

(** The run sends its head first (after the fetch, if there is one), the
    head allows every origin, and the body and one [end] follow. *)
Definition head_shape (es : list event) : Prop :=
  exists code headers rest,
    (es = WriteHead code headers :: rest
     \/ exists c, es = Fetch c :: WriteHead code headers :: rest)
    /\ body_then_end rest = true
    /\ headers !! "Access-Control-Allow-Origin" = Some "*".

(** An upstream answer that is a page of HTML. *)
Definition html_page : Response :=
  {| status := 200;
     header_content_type := Some "text/html; charset=utf-8";
     header_content_length := Some "21";
     body := Some ["<html>"; "catalog"; "</html>"] |}.

(** An upstream answer that announces JSON, with the status 201. *)
Definition created_json : Response :=
  {| status := 201;
     header_content_type := Some "application/json";
     header_content_length := None;
     body := Some ["{}"] |}.


(** The answer of an image host that declares 20 MiB. *)
Definition huge_image : Response :=
  {| status := 200;
     header_content_type := Some "image/png";
     header_content_length := Some "20971520";
     body := Some ["..."] |}.

(** What [new URL] exposes of "ftp://files.example.com/a.png". *)
Definition ftp_url : URL :=
  {| protocol := "ftp:";
     hostname := "files.example.com";
     origin := "null" |}.

(** * Properties *)

(** ** Strings and regular expressions *)

Lemma append_assoc (s1 s2 s3 : string) : (s1 ++ s2) ++ s3 = s1 ++ (s2 ++ s3).
Proof.
  induction s1 as [| a s1 IH]; [reflexivity |].
  change (String a ((s1 ++ s2) ++ s3) = String a (s1 ++ (s2 ++ s3))).
  f_equal. exact IH.
Qed.

Lemma append_empty (s : string) : s ++ EmptyString = s.
Proof.
  induction s as [| a s IH]; [reflexivity |].
  change (String a (s ++ EmptyString) = String a s). f_equal. exact IH.
Qed.

Lemma length_append (s1 s2 : string) :
  String.length (s1 ++ s2) = (String.length s1 + String.length s2)%nat.
Proof.
  induction s1 as [| a s1 IH]; [reflexivity |].
  change (S (String.length (s1 ++ s2)) = S (String.length s1 + String.length s2)).
  rewrite IH. reflexivity.
Qed.

Lemma matcher_Seq i r1 r2 bol s k :
  matcher i (Seq r1 r2) bol s k = matcher i r1 bol s (fun b' s' => matcher i r2 b' s' k).
Proof. reflexivity. Qed.

Lemma matcher_Alt i r1 r2 bol s k :
  matcher i (Alt r1 r2) bol s k = matcher i r1 bol s k || matcher i r2 bol s k.
Proof. reflexivity. Qed.

Lemma matcher_Rep i min max r bol s k :
  matcher i (Rep min max r) bol s k =
  repeat_matcher (matcher i r) k
    (match max with Some n => n | None => (min + String.length s)%nat end) min bol s.
Proof. reflexivity. Qed.

Lemma matcher_dot_char s k bol :
  matcher false (Chr ".") bol (String "." s) k = k false s.
Proof. reflexivity. Qed.

Lemma repeat_matcher_more m k budget min bol s :
  repeat_matcher m k (S budget) (S min) bol s =
  m bol s (fun b' s' => repeat_matcher m k budget min b' s').
Proof. reflexivity. Qed.

Lemma repeat_matcher_enough m k budget bol s :
  k bol s = true -> repeat_matcher m k budget 0 bol s = true.
Proof. intros H. destruct budget; simpl; rewrite H; reflexivity. Qed.

Lemma repeat_matcher_again m k budget bol s :
  m bol s (fun b' s' => (String.length s' <? String.length s)%nat
                        && repeat_matcher m k budget 0 b' s') = true ->
  repeat_matcher m k (S budget) 0 bol s = true.
Proof. intros H. simpl. simpl in H. rewrite H. apply orb_true_r. Qed.

Lemma search_head i r bol s :
  matcher i r bol s (fun _ _ => true) = true -> search i r bol s = true.
Proof. intros H. destruct s; simpl; rewrite H; reflexivity. Qed.

Lemma matcher_Lit (p : string) : forall (s : string) (bol : bool),
  p <> EmptyString ->
  matcher true (Lit p) bol s (fun _ _ => true) = starts_with_ci s p.
Proof.
  induction p as [| b p IH]; intros s bol Hp; [congruence |].
  destruct p as [| b' p].
  - destruct s as [| a s]; simpl; reflexivity.
  - change (Lit (String b (String b' p))) with (Seq (Chr b) (Lit (String b' p))).
    destruct s as [| a s]; [reflexivity |].
    change (chr_eq true b a
            && matcher true (Lit (String b' p)) false s (fun _ _ => true)
            = chr_eq true b a && starts_with_ci s (String b' p)).
    rewrite IH by discriminate. reflexivity.
Qed.

Lemma search_Alt_Lit (p q : string) : forall (s : string) (bol : bool),
  p <> EmptyString -> q <> EmptyString ->
  search true (Alt (Lit p) (Lit q)) bol s = contains_ci s p || contains_ci s q.
Proof.
  induction s as [| a s IH]; intros bol Hp Hq.
  - simpl search. rewrite !matcher_Lit by assumption. simpl.
    rewrite !orb_false_r. reflexivity.
  - change (search true (Alt (Lit p) (Lit q)) bol (String a s))
      with ((matcher true (Lit p) bol (String a s) (fun _ _ => true)
             || matcher true (Lit q) bol (String a s) (fun _ _ => true))
            || search true (Alt (Lit p) (Lit q)) false s).
    rewrite !matcher_Lit, IH by assumption.
    change (contains_ci (String a s) p)
      with (starts_with_ci (String a s) p || contains_ci s p).
    change (contains_ci (String a s) q)
      with (starts_with_ci (String a s) q || contains_ci s q).
    destruct (starts_with_ci (String a s) p), (starts_with_ci (String a s) q),
             (contains_ci s p), (contains_ci s q); reflexivity.
Qed.

(** ** The rate limiter *)

Section RateLimiterFacts.

Import RateLimiter.

Variable env : option string.

Lemma isRateLimited_unfold (m : gmap string (list Z)) now ip :
  isRateLimited env m now ip =
  if reaches (Z.of_nat (List.length (recent m now ip))) (RATE_LIMIT_PER_MIN env)
  then (true, m)
  else (false, <[ip := (recent m now ip ++ [now])%list]> m).
Proof. reflexivity. Qed.

Lemma isRateLimited_limited (m : gmap string (list Z)) now ip :
  fst (isRateLimited env m now ip) = true ->
  snd (isRateLimited env m now ip) = m.
Proof.
  rewrite isRateLimited_unfold.
  destruct (reaches _ _); simpl; [reflexivity | discriminate].
Qed.

Lemma isRateLimited_admitted (m : gmap string (list Z)) now ip :
  fst (isRateLimited env m now ip) = false ->
  snd (isRateLimited env m now ip) = <[ip := (recent m now ip ++ [now])%list]> m.
Proof.
  rewrite isRateLimited_unfold.
  destruct (reaches _ _); simpl; [discriminate | reflexivity].
Qed.

Lemma isRateLimited_answer (m : gmap string (list Z)) now ip L :
  RATE_LIMIT_PER_MIN env = Some L ->
  fst (isRateLimited env m now ip) = true <->
  L <= Z.of_nat (List.length (recent m now ip)).
Proof.
  intros HL. rewrite isRateLimited_unfold, HL. unfold reaches.
  destruct (Z.leb_spec L (Z.of_nat (List.length (recent m now ip)))); simpl.
  - split; [intros _; assumption | reflexivity].
  - split; [discriminate | lia].
Qed.

Lemma bounded_empty L : bounded L ∅.
Proof. intros ip l H. rewrite lookup_empty in H. discriminate. Qed.

Lemma isRateLimited_bounded L (m : gmap string (list Z)) now ip :
  RATE_LIMIT_PER_MIN env = Some L ->
  bounded L m -> bounded L (snd (isRateLimited env m now ip)).
Proof.
  intros HL Hm. rewrite isRateLimited_unfold, HL. unfold reaches.
  destruct (Z.leb_spec L (Z.of_nat (List.length (recent m now ip)))); simpl.
  - exact Hm.
  - intros ip' l'. destruct (decide (ip = ip')) as [<- | Hne].
    + rewrite lookup_insert_eq. intros [= <-].
      rewrite length_app. simpl. lia.
    + rewrite lookup_insert_ne by exact Hne. apply Hm.
Qed.

Lemma calls_bounded L cs : forall m : gmap string (list Z),
  RATE_LIMIT_PER_MIN env = Some L ->
  bounded L m -> bounded L (snd (calls env m cs)).
Proof.
  induction cs as [| [ip now] cs IH]; intros m HL Hm; simpl.
  - exact Hm.
  - pose proof (isRateLimited_bounded L m now ip HL Hm) as Hstep.
    destruct (isRateLimited env m now ip) as [limited m1]. simpl in Hstep.
    specialize (IH m1 HL Hstep).
    destruct (calls env m1 cs) as [answers m2]. exact IH.
Qed.

End RateLimiterFacts.

(** C10: whatever calls of [isRateLimited] were made since the map was
    created, with whatever identifiers and at whatever times, every stored
    list of timestamps has at most [RATE_LIMIT_PER_MIN] entries, [L] being
    the number that the limit was configured to. *)
Theorem stored_window_at_most_limit :
  forall (env : option string) (L : Z) (cs : list (string * Z))
         (ip : string) (l : list Z),
    RateLimiter.RATE_LIMIT_PER_MIN env = Some L ->
    snd (RateLimiter.calls env ∅ cs) !! ip = Some l ->
    Z.of_nat (List.length l) <= L.
Proof.
  intros env L cs ip l HL Hl.
  exact (calls_bounded env L cs ∅ HL (bounded_empty L) ip l Hl).
Qed.

Lemma stored_window_at_most_limit_witness :
  RateLimiter.RATE_LIMIT_PER_MIN None = Some 60 /\
  Z.of_nat (List.length [5; 7]) <= 60.
Proof.
  split; [reflexivity |].
  apply (stored_window_at_most_limit None 60 [("a", 5); ("b", 6); ("a", 7)] "a" [5; 7]).
  - reflexivity.
  - vm_compute. reflexivity.
Defined.

(** C5: with the limit 2 (and the window of 60000 ms), three calls for one
    fresh identifier within the window answer false, false, true, and a call
    once the window of the first one has elapsed answers false again.  In
    general a call answers true exactly when the stored timestamps within the
    trailing window number at least the limit; a call that answers true
    leaves the map as it was, and a call that answers false stores the
    filtered window with the current time appended. *)
Theorem rate_limiter_behaviour :
  (forall (m : gmap string (list Z)) (ip : string) (t1 t2 t3 t4 : Z),
      m !! ip = None ->
      t1 <= t2 -> t2 <= t3 -> t3 - t1 < 60000 -> 60000 <= t4 - t1 ->
      fst (RateLimiter.calls (Some "2") m [(ip, t1); (ip, t2); (ip, t3); (ip, t4)])
      = [false; false; true; false]) /\
  (forall (env : option string) (L : Z) (m : gmap string (list Z))
          (now : Z) (ip : string),
      RateLimiter.RATE_LIMIT_PER_MIN env = Some L ->
      let answer := RateLimiter.isRateLimited env m now ip in
      (fst answer = true <-> L <= Z.of_nat (List.length (recent m now ip))) /\
      (fst answer = true -> snd answer = m) /\
      (fst answer = false ->
       snd answer = <[ip := (recent m now ip ++ [now])%list]> m)).
Proof.
  split.
  - intros m ip t1 t2 t3 t4 Hfresh H12 H23 H31 H41.
    assert (Hlim : RateLimiter.RATE_LIMIT_PER_MIN (Some "2") = Some 2)
      by reflexivity.
    assert (Hw : RateLimiter.RATE_LIMIT_WINDOW_MS = 60000) by reflexivity.
    (* first call: nothing stored *)
    assert (H1 : RateLimiter.isRateLimited (Some "2") m t1 ip
                 = (false, <[ip := [t1]]> m)).
    { rewrite isRateLimited_unfold, Hlim. unfold recent. rewrite Hfresh.
      reflexivity. }
    (* second call: [t1] stored and still recent *)
    assert (H2 : RateLimiter.isRateLimited (Some "2") (<[ip := [t1]]> m) t2 ip
                 = (false, <[ip := [t1; t2]]> m)).
    { rewrite isRateLimited_unfold, Hlim. unfold recent.
      rewrite lookup_insert_eq, Hw. simpl.
      replace (t2 - t1 <? 60000) with true by (symmetry; apply Z.ltb_lt; lia).
      simpl. rewrite insert_insert_eq. reflexivity. }
    (* third call: [t1; t2] stored and both recent *)
    assert (H3 : RateLimiter.isRateLimited (Some "2") (<[ip := [t1; t2]]> m) t3 ip
                 = (true, <[ip := [t1; t2]]> m)).
    { rewrite isRateLimited_unfold, Hlim. unfold recent.
      rewrite lookup_insert_eq, Hw. simpl.
      replace (t3 - t1 <? 60000) with true by (symmetry; apply Z.ltb_lt; lia).
      replace (t3 - t2 <? 60000) with true by (symmetry; apply Z.ltb_lt; lia).
      reflexivity. }
    (* fourth call: [t1] has left the window *)
    assert (H4 : fst (RateLimiter.isRateLimited (Some "2")
                        (<[ip := [t1; t2]]> m) t4 ip) = false).
    { rewrite isRateLimited_unfold, Hlim. unfold recent.
      rewrite lookup_insert_eq, Hw. simpl.
      replace (t4 - t1 <? 60000) with false by (symmetry; apply Z.ltb_ge; lia).
      destruct (t4 - t2 <? 60000); reflexivity. }
    simpl RateLimiter.calls. rewrite H1, H2, H3.
    destruct (RateLimiter.isRateLimited (Some "2") (<[ip := [t1; t2]]> m) t4 ip)
      as [a4 m4].
    simpl in H4. subst a4. reflexivity.
  - intros env L m now ip HL answer. subst answer. repeat split.
    + apply (isRateLimited_answer env m now ip L HL).
    + apply (isRateLimited_answer env m now ip L HL).
    + apply isRateLimited_limited.
    + apply isRateLimited_admitted.
Qed.

Lemma rate_limiter_behaviour_witness :
  fst (RateLimiter.calls (Some "2") ∅
         [("203.0.113.7", 1000); ("203.0.113.7", 2000);
          ("203.0.113.7", 60999); ("203.0.113.7", 61000)])
  = [false; false; true; false]
  /\ (fst (RateLimiter.isRateLimited None {["203.0.113.7" := [1000]]} 2000
             "203.0.113.7") = true
      <-> 60 <= Z.of_nat (List.length (recent {["203.0.113.7" := [1000]]} 2000
                                         "203.0.113.7"))).
Proof.
  split.
  - apply (proj1 rate_limiter_behaviour ∅ "203.0.113.7" 1000 2000 60999 61000).
    + reflexivity.
    + lia.
    + lia.
    + lia.
    + lia.
  - apply (proj2 rate_limiter_behaviour None 60 {["203.0.113.7" := [1000]]} 2000
             "203.0.113.7").
    reflexivity.
Defined.

(** ** The URL rewriter *)

Section RewriterFacts.

Import Gateway.

Variable URL_new : string -> option URL.

Lemma needsRewrite_relative (upstreamOrigin value : string) :
  Js.startsWith value "/" = true ->
  needsRewrite upstreamOrigin value =
  test true UPLOAD_HEURISTICS (upstreamOrigin ++ value)
  || is_absolute (upstreamOrigin ++ value)
     && test true IMAGE_EXTENSIONS (upstreamOrigin ++ value).
Proof.
  intros Hrel. unfold needsRewrite, originalUrl. rewrite Hrel.
  destruct (test true UPLOAD_HEURISTICS (upstreamOrigin ++ value));
    destruct (is_absolute (upstreamOrigin ++ value));
    destruct (test true IMAGE_EXTENSIONS (upstreamOrigin ++ value));
    reflexivity.
Qed.

Lemma rewriteString_unmarked (upstreamOrigin value : string) :
  needsRewrite upstreamOrigin value = false ->
  rewriteString URL_new upstreamOrigin value = value.
Proof. intros H. unfold rewriteString. rewrite H. reflexivity. Qed.

Lemma recursiveRewrite_array_of_strings (upstreamOrigin : string)
    (l : list string) :
  recursiveRewrite URL_new (JArray (map JString l)) upstreamOrigin
  = JArray (map JString l).
Proof.
  simpl. f_equal. induction l as [| s l IH]; simpl.
  - reflexivity.
  - f_equal. exact IH.
Qed.

End RewriterFacts.

(** The upload-path pattern accepts the strings that contain /uploads/ or
    /wp-content/uploads/, whatever the case of the letters. *)
Lemma UPLOAD_HEURISTICS_contains (s : string) :
  test true Gateway.UPLOAD_HEURISTICS s
  = contains_ci s "/uploads/" || contains_ci s "/wp-content/uploads/".
Proof. apply search_Alt_Lit; discriminate. Qed.

(** C1: a string that is an element of an array is not rewritten, whatever
    it looks like: an array of strings comes back as it was.  The same
    string as a property value of an object is replaced by the proxy
    reference. *)
Theorem array_element_strings_are_not_rewritten :
  (forall (URL_new : string -> option URL) (upstreamOrigin : string)
          (l : list string),
      Gateway.recursiveRewrite URL_new (JArray (map JString l)) upstreamOrigin
      = JArray (map JString l)) /\
  Gateway.needsRewrite "https://www.sankavollerei.com"
    "https://cdn.example.com/covers/a.jpg" = true /\
  Gateway.recursiveRewrite (fun _ => Some cdn_url)
    (JObject [("images", JArray [JString "https://cdn.example.com/covers/a.jpg"])])
    "https://www.sankavollerei.com"
  = JObject [("images", JArray [JString "https://cdn.example.com/covers/a.jpg"])] /\
  Gateway.recursiveRewrite (fun _ => Some cdn_url)
    (JObject [("image", JString "https://cdn.example.com/covers/a.jpg")])
    "https://www.sankavollerei.com"
  = JObject [("image",
              JString "/api/proxy-img?url=https%3A%2F%2Fcdn.example.com%2Fcovers%2Fa.jpg")].
Proof.
  split; [| split; [| split]].
  - intros URL_new upstreamOrigin l.
    apply recursiveRewrite_array_of_strings.
  - vm_compute. reflexivity.
  - vm_compute. reflexivity.
  - vm_compute. reflexivity.
Qed.

(** C4, as the code has it: a string value that begins with a slash and
    reaches the string rule is marked for rewrite exactly when its
    resolution against the upstream origin contains /uploads/ or
    /wp-content/uploads/ (in any case of the letters), or starts with
    http:// or https:// and matches the image-extension pattern; an unmarked
    one is left unchanged. *)
Theorem relative_string_marked_iff :
  forall (URL_new : string -> option URL) (upstreamOrigin value : string),
    Js.startsWith value "/" = true ->
    let resolved := upstreamOrigin ++ value in
    (Gateway.needsRewrite upstreamOrigin value = true <->
     (contains_ci resolved "/uploads/" = true \/
      contains_ci resolved "/wp-content/uploads/" = true) \/
     (Gateway.is_absolute resolved = true /\
      test true Gateway.IMAGE_EXTENSIONS resolved = true)) /\
    (Gateway.needsRewrite upstreamOrigin value = false ->
     Gateway.rewriteString URL_new upstreamOrigin value = value).
Proof.
  intros URL_new upstreamOrigin value Hrel resolved. split.
  - rewrite (needsRewrite_relative upstreamOrigin value Hrel). fold resolved.
    rewrite UPLOAD_HEURISTICS_contains.
    rewrite !orb_true_iff, andb_true_iff. reflexivity.
  - apply rewriteString_unmarked.
Qed.

Lemma relative_string_marked_iff_witness :
  Gateway.needsRewrite "https://www.sankavollerei.com" "/img/a.jpg" = true.
Proof.
  apply (proj1 (relative_string_marked_iff (fun _ => Some upstream_url)
                  "https://www.sankavollerei.com" "/img/a.jpg" eq_refl)).
  right. split; vm_compute; reflexivity.
Defined.

(** C4 as the claim states it fails: the string "/img/a.jpg" begins with a
    slash, its resolution does not match the upload-path heuristic but
    matches the image-extension pattern, and the rewriter marks it and
    replaces it. *)
Lemma relative_image_string_is_rewritten :
  Js.startsWith "/img/a.jpg" "/" = true /\
  test true Gateway.UPLOAD_HEURISTICS ("https://www.sankavollerei.com" ++ "/img/a.jpg")
  = false /\
  contains_ci ("https://www.sankavollerei.com" ++ "/img/a.jpg") "/uploads/" = false /\
  test true Gateway.IMAGE_EXTENSIONS ("https://www.sankavollerei.com" ++ "/img/a.jpg")
  = true /\
  Gateway.needsRewrite "https://www.sankavollerei.com" "/img/a.jpg" = true /\
  Gateway.recursiveRewrite (fun _ => Some upstream_url)
    (JObject [("thumbnail", JString "/img/a.jpg")]) "https://www.sankavollerei.com"
  = JObject [("thumbnail",
              JString "/api/proxy-img?url=https%3A%2F%2Fwww.sankavollerei.com%2Fimg%2Fa.jpg")].
Proof. repeat split; vm_compute; reflexivity. Qed.

(** ** The gateway handler *)

Lemma in_fetch_existsb (c : FetchCall) (es : list event) :
  In (Fetch c) es -> existsb is_fetch es = true.
Proof.
  intros H. apply existsb_exists. exists (Fetch c). split; [exact H | reflexivity].
Qed.

Lemma pipe_no_fetch (b : option (list string)) : existsb is_fetch (pipe b) = false.
Proof.
  destruct b as [chunks |]; simpl; [| reflexivity].
  induction chunks as [| c chunks IH]; simpl; [reflexivity | exact IH].
Qed.

Section GatewayFacts.

Import Gateway.

Variable env_MAX_JSON_SIZE_BYTES : option string.
Variable env_RATE_LIMIT_PER_MIN : option string.
Variable URL_new : string -> option URL.
Variable JSON_parse : string -> option JsonValue.
Variable fetch : FetchCall -> FetchResult.
Variable Response_error_message : string.

Local Abbreviation deliver :=
  (deliver env_MAX_JSON_SIZE_BYTES URL_new JSON_parse Response_error_message).
Local Abbreviation handler :=
  (handler env_MAX_JSON_SIZE_BYTES env_RATE_LIMIT_PER_MIN URL_new JSON_parse
           fetch Response_error_message).

Lemma streamPassthrough_no_fetch r extra :
  existsb is_fetch (streamPassthrough r extra) = false.
Proof. unfold streamPassthrough. simpl. apply pipe_no_fetch. Qed.

Lemma deliver_no_fetch upstreamOrigin r :
  existsb is_fetch (deliver upstreamOrigin r) = false.
Proof.
  unfold Gateway.deliver.
  destruct (Js.includes _ _); [| apply streamPassthrough_no_fetch].
  destruct (exceeds _ _); [reflexivity |].
  destruct (JSON_parse _); [reflexivity |].
  destruct (Response_new _ _); [apply streamPassthrough_no_fetch | reflexivity].
Qed.

(** A run that fetches is a run that passed every check; what follows the
    fetch is decided by the outcome of the fetch, and [JSON.parse] plays no
    part before it. *)
Lemma handler_fetch_inv m now req call :
  In (Fetch call) (snd (handler m now req)) ->
  exists u,
    forall parse : string -> option JsonValue,
      snd (Gateway.handler env_MAX_JSON_SIZE_BYTES env_RATE_LIMIT_PER_MIN URL_new
             parse fetch Response_error_message m now req) =
      Fetch call ::
      match fetch call with
      | Rejected message => fetch_failed message
      | Resolved upstreamResponse =>
          Gateway.deliver env_MAX_JSON_SIZE_BYTES URL_new parse
            Response_error_message (origin u) upstreamResponse
      end.
Proof.
  unfold Gateway.handler.
  destruct (String.eqb (method req) "OPTIONS").
  { intros H. apply in_fetch_existsb in H. discriminate H. }
  destruct (RateLimiter.isRateLimited _ _ _ _) as [limited counts].
  cbn [snd].
  destruct limited.
  { intros H. apply in_fetch_existsb in H. discriminate H. }
  destruct (negb _ || negb _).
  { intros H. apply in_fetch_existsb in H. discriminate H. }
  destruct (URL_new _) as [u |].
  2:{ intros H. apply in_fetch_existsb in H. discriminate H. }
  intros [Heq | Hin].
  - injection Heq as <-. exists u. reflexivity.
  - apply in_fetch_existsb in Hin.
    destruct (fetch _) as [r | message].
    + rewrite deliver_no_fetch in Hin. discriminate Hin.
    + discriminate Hin.
Qed.

Lemma json_content_type_present (r : Response) :
  Js.includes (Js.or_else (header_content_type r) EmptyString) "application/json"
  = true ->
  exists c, header_content_type r = Some c /\ Js.truthy c = true
            /\ Js.includes c "application/json" = true.
Proof.
  unfold Js.or_else. destruct (header_content_type r) as [c |].
  - destruct (Js.truthy c) eqn:Hc.
    + intros H. exists c. auto.
    + intros H. vm_compute in H. discriminate H.
  - intros H. vm_compute in H. discriminate H.
Qed.

End GatewayFacts.

(** C6: when the upstream answer announces JSON and its body has more bytes
    than [MAX_JSON_SIZE_BYTES] (2 MiB unless configured), the gateway answers
    502 with the fixed error body, whatever [JSON.parse] would have made of
    the body: it is neither parsed nor rewritten. *)
Theorem oversized_json_is_refused :
  forall (env_MAX env_RATE : option string) (URL_new : string -> option URL)
         (JSON_parse : string -> option JsonValue)
         (fetch : FetchCall -> FetchResult) (Response_error_message : string)
         (m : gmap string (list Z)) (now : Z) (req : Request)
         (call : FetchCall) (upstreamResponse : Response) (L : Z),
    In (Fetch call)
       (snd (Gateway.handler env_MAX env_RATE URL_new JSON_parse fetch
               Response_error_message m now req)) ->
    fetch call = Resolved upstreamResponse ->
    Js.includes (Js.or_else (header_content_type upstreamResponse) EmptyString)
                "application/json" = true ->
    Gateway.MAX_JSON_SIZE_BYTES env_MAX = Some L ->
    L < Gateway.byteLength (Gateway.text_of upstreamResponse) ->
    (forall parse : string -> option JsonValue,
        snd (Gateway.handler env_MAX env_RATE URL_new parse fetch
               Response_error_message m now req)
        = [Fetch call;
           WriteHead 502 (<["Content-Type" := "application/json"]> Gateway.CORS_HEADERS);
           End (Some (Js.with_dquotes
             "{'success':false,'error':'Upstream response too large to parse','code':502,'rewrote':false}"))])
    /\ Gateway.MAX_JSON_SIZE_BYTES None = Some (2 * 1024 * 1024).
Proof.
  intros env_MAX env_RATE URL_new JSON_parse fetch msg m now req call up L
         Hfetch Hup Hjson HL Hsize.
  split; [| reflexivity].
  destruct (handler_fetch_inv env_MAX env_RATE URL_new JSON_parse fetch msg
              m now req call Hfetch) as [u Hrun].
  intros parse. rewrite (Hrun parse), Hup. f_equal.
  unfold Gateway.deliver. rewrite Hjson, HL. unfold Gateway.exceeds.
  replace (L <? Gateway.byteLength (Gateway.text_of up)) with true
    by (symmetry; apply Z.ltb_lt; exact Hsize).
  reflexivity.
Qed.

Lemma oversized_json_is_refused_witness :
  (forall parse : string -> option JsonValue,
      snd (Gateway.handler (Some "16") None (fun _ => Some upstream_url) parse
             (fun _ => Resolved json_of_24_bytes) "TypeError" ∅ 1000 home_request)
      = [Fetch (Gateway.upstream_call home_request
                  "https://www.sankavollerei.com/comic/komikstation/home");
         WriteHead 502 (<["Content-Type" := "application/json"]> Gateway.CORS_HEADERS);
         End (Some (Js.with_dquotes
           "{'success':false,'error':'Upstream response too large to parse','code':502,'rewrote':false}"))])
  /\ Gateway.MAX_JSON_SIZE_BYTES None = Some (2 * 1024 * 1024).
Proof.
  apply (oversized_json_is_refused (Some "16") None (fun _ => Some upstream_url)
           (fun _ => None) (fun _ => Resolved json_of_24_bytes) "TypeError"
           ∅ 1000 home_request
           (Gateway.upstream_call home_request
              "https://www.sankavollerei.com/comic/komikstation/home")
           json_of_24_bytes 16).
  - vm_compute. left. reflexivity.
  - reflexivity.
  - vm_compute. reflexivity.
  - vm_compute. reflexivity.
  - vm_compute. reflexivity.
Defined.

(** C3: when the upstream answer announces JSON and its body does not parse,
    the gateway delivers the raw text under the content type that the
    upstream declared, not as text/plain: [streamPassthrough] overwrites the
    content type it was handed with the one of the response. *)
Theorem unparsable_json_keeps_upstream_content_type :
  forall (env_MAX env_RATE : option string) (URL_new : string -> option URL)
         (JSON_parse : string -> option JsonValue)
         (fetch : FetchCall -> FetchResult) (Response_error_message : string)
         (m : gmap string (list Z)) (now : Z) (req : Request)
         (call : FetchCall) (upstreamResponse r : Response),
    In (Fetch call)
       (snd (Gateway.handler env_MAX env_RATE URL_new JSON_parse fetch
               Response_error_message m now req)) ->
    fetch call = Resolved upstreamResponse ->
    Js.includes (Js.or_else (header_content_type upstreamResponse) EmptyString)
                "application/json" = true ->
    Gateway.exceeds (Gateway.byteLength (Gateway.text_of upstreamResponse))
                    (Gateway.MAX_JSON_SIZE_BYTES env_MAX) = false ->
    JSON_parse (Gateway.text_of upstreamResponse) = None ->
    Gateway.Response_new (Gateway.text_of upstreamResponse) upstreamResponse
    = Some r ->
    let events := snd (Gateway.handler env_MAX env_RATE URL_new JSON_parse fetch
                         Response_error_message m now req) in
    response_header "Content-Type" events = header_content_type upstreamResponse
    /\ response_header "Content-Type" events <> Some "text/plain; charset=utf-8"
    /\ response_status events = Some (status upstreamResponse)
    /\ response_body events = Gateway.text_of upstreamResponse.
Proof.
  intros env_MAX env_RATE URL_new JSON_parse fetch msg m now req call up r
         Hfetch Hup Hjson Hsize Hparse Hnew events.
  destruct (handler_fetch_inv env_MAX env_RATE URL_new JSON_parse fetch msg
              m now req call Hfetch) as [u Hrun].
  subst events. rewrite (Hrun JSON_parse), Hup.
  unfold Gateway.deliver. rewrite Hjson, Hsize, Hparse, Hnew.
  destruct (json_content_type_present up Hjson) as (c & Hc & Htruthy & Hinc).
  unfold Gateway.Response_new in Hnew.
  destruct (negb _ || _ || _ || _); [discriminate Hnew |].
  injection Hnew as <-. rewrite Hc.
  assert (Hhead : forall extra : gmap string string,
             response_header "Content-Type"
               (Fetch call ::
                Gateway.streamPassthrough
                  {| status := status up; header_content_type := Some c;
                     header_content_length := header_content_length up;
                     body := Some [Gateway.text_of up] |} extra) = Some c).
  { intros extra. unfold Gateway.streamPassthrough, response_header. simpl.
    unfold Js.or_else. rewrite Htruthy.
    destruct (header_content_length up).
    - rewrite lookup_insert_ne by discriminate. apply lookup_insert_eq.
    - apply lookup_insert_eq. }
  split; [| split; [| split]].
  - apply Hhead.
  - rewrite Hhead. intros [= ->]. vm_compute in Hinc. discriminate Hinc.
  - reflexivity.
  - simpl. apply append_empty.
Qed.

Lemma unparsable_json_keeps_upstream_content_type_witness :
  let events :=
    snd (Gateway.handler None None (fun _ => Some upstream_url) (fun _ => None)
           (fun _ => Resolved html_as_json) "TypeError" ∅ 1000 home_request) in
  response_header "Content-Type" events = header_content_type html_as_json
  /\ response_header "Content-Type" events <> Some "text/plain; charset=utf-8"
  /\ response_status events = Some (status html_as_json)
  /\ response_body events = Gateway.text_of html_as_json.
Proof.
  apply (unparsable_json_keeps_upstream_content_type None None
           (fun _ => Some upstream_url) (fun _ => None)
           (fun _ => Resolved html_as_json) "TypeError" ∅ 1000 home_request
           (Gateway.upstream_call home_request
              "https://www.sankavollerei.com/comic/komikstation/home")
           html_as_json
           {| status := 200;
              header_content_type := Some "application/json";
              header_content_length := None;
              body := Some ["<html>Service unavailable</html>"] |}).
  - vm_compute. left. reflexivity.
  - reflexivity.
  - vm_compute. reflexivity.
  - vm_compute. reflexivity.
  - reflexivity.
  - vm_compute. reflexivity.
Defined.

(** ** The image proxy *)

(** *** Regular expressions on dotted quads *)

Lemma of_int_octet (x : Z) : 0 <= x <= 255 -> octet_text (Js.of_int x) = true.
Proof.
  intros Hx.
  assert (Hall : forallb (fun n => octet_text (Js.of_int (Z.of_nat n))) (seq 0 256) = true)
    by (vm_compute; reflexivity).
  rewrite forallb_forall in Hall.
  specialize (Hall (Z.to_nat x)).
  rewrite Z2Nat.id in Hall by lia. apply Hall.
  apply in_seq. lia.
Qed.

Lemma matcher_digit a s k bol :
  Js.is_digit a = true ->
  matcher false SsrfGuard.digit bol (String a s) k = k false s.
Proof.
  intros Ha. simpl. unfold Js.is_digit in Ha.
  change (Js.code "0") with 48. change (Js.code "9") with 57. rewrite Ha. reflexivity.
Qed.

Lemma octet_text_inv (o : string) :
  octet_text o = true ->
  all_digits o = true /\ (1 <= String.length o <= 3)%nat.
Proof.
  unfold octet_text. rewrite !andb_true_iff, !Nat.leb_le. tauto.
Qed.

(** Digits are consumed one per iteration. *)
Lemma repeat_digits (k : bool -> string -> bool) (rest : string) :
  (forall b, k b rest = true) ->
  forall (o : string) (budget : nat) (bol : bool),
    all_digits o = true -> (String.length o <= budget)%nat ->
    repeat_matcher (matcher false SsrfGuard.digit) k budget 0 bol (o ++ rest) = true.
Proof.
  intros Hk. induction o as [| d o IH]; intros budget bol Hdigits Hlen.
  - change (EmptyString ++ rest) with rest.
    destruct budget; simpl; rewrite Hk; reflexivity.
  - simpl in Hdigits. apply andb_true_iff in Hdigits as [Hd Ho].
    destruct budget as [| budget]; [simpl in Hlen; lia |].
    change (String d o ++ rest) with (String d (o ++ rest)).
    cbn [repeat_matcher]. rewrite (matcher_digit d _ _ bol Hd).
    replace (String.length (o ++ rest) <? String.length (String d (o ++ rest)))%nat
      with true by (symmetry; apply Nat.ltb_lt; simpl; lia).
    rewrite IH by (try assumption; simpl in Hlen; lia).
    apply orb_true_r.
Qed.

(** [[0-9]{1,3}] and [[0-9]+] take a whole octet. *)
Lemma matcher_octet (max : option nat) (o rest : string)
    (k : bool -> string -> bool) (bol : bool) :
  max = Some 3%nat \/ max = None ->
  octet_text o = true -> (forall b, k b rest = true) ->
  matcher false (Rep 1 max SsrfGuard.digit) bol (o ++ rest) k = true.
Proof.
  intros Hmax Ho Hk. apply octet_text_inv in Ho as [Hdigits Hlen].
  destruct o as [| d o]; [simpl in Hlen; lia |].
  simpl in Hdigits. apply andb_true_iff in Hdigits as [Hd Ho].
  change (String d o ++ rest) with (String d (o ++ rest)).
  cbn [matcher].
  set (budget := match max with Some n => n | None => _ end).
  assert (Hbudget : (S (String.length o) <= budget)%nat).
  { subst budget. destruct Hmax as [-> | ->].
    - simpl in Hlen. lia.
    - simpl. rewrite length_append. lia. }
  destruct budget as [| budget]; [lia |].
  cbn [repeat_matcher orb Nat.pred]. rewrite (matcher_digit d _ _ bol Hd).
  cbn [andb]. apply repeat_digits; [exact Hk | exact Ho | lia].
Qed.

(** [[0-9]{1,3}\.] *)
Lemma matcher_octet_dot (o rest : string) (k : bool -> string -> bool) (bol : bool) :
  octet_text o = true -> (forall b, k b rest = true) ->
  matcher false (Seq (Rep 1 (Some 3%nat) SsrfGuard.digit) (Chr "."))
          bol (o ++ String "." rest) k = true.
Proof.
  intros Ho Hk. rewrite matcher_Seq.
  apply matcher_octet; [left; reflexivity | exact Ho |].
  intros b. rewrite matcher_dot_char. apply Hk.
Qed.

Lemma ipRegex_dotted (oa ob oc od : string) :
  octet_text oa = true -> octet_text ob = true ->
  octet_text oc = true -> octet_text od = true ->
  test false SsrfGuard.ipRegex
       (oa ++ String "." (ob ++ String "." (oc ++ String "." od))) = true.
Proof.
  intros Ha Hb Hc Hd. apply search_head.
  unfold SsrfGuard.ipRegex. rewrite matcher_Seq.
  change (matcher false
            (Seq (Rep 3 (Some 3%nat) (Seq (Rep 1 (Some 3%nat) SsrfGuard.digit) (Chr ".")))
                 (Seq (Rep 1 (Some 3%nat) SsrfGuard.digit) Eol))
            true (oa ++ String "." (ob ++ String "." (oc ++ String "." od)))
            (fun _ _ => true) = true).
  rewrite matcher_Seq, matcher_Rep, repeat_matcher_more.
  apply matcher_octet_dot; [exact Ha |]. intros ?; cbv beta.
  rewrite repeat_matcher_more.
  apply matcher_octet_dot; [exact Hb |]. intros ?; cbv beta.
  rewrite repeat_matcher_more.
  apply matcher_octet_dot; [exact Hc |]. intros ?; cbv beta.
  apply repeat_matcher_enough. rewrite matcher_Seq.
  rewrite <- (append_empty od).
  apply matcher_octet; [left; reflexivity | exact Hd |].
  intros ?. reflexivity.
Qed.

(** The tail of a private pattern finds its match in [.o]. *)
Lemma octets_tail_prefix (o rest : string) (bol : bool) :
  octet_text o = true ->
  matcher false SsrfGuard.octets_tail bol (String "." (o ++ rest)) (fun _ _ => true)
  = true.
Proof.
  intros Ho. unfold SsrfGuard.octets_tail. rewrite matcher_Seq, matcher_Rep.
  apply repeat_matcher_enough.
  rewrite matcher_Seq, matcher_dot_char. unfold Plus.
  apply matcher_octet; [right; reflexivity | exact Ho |].
  intros ?. reflexivity.
Qed.

(** The tail of a private pattern takes [.oc.od] up to the end. *)
Lemma octets_tail_whole (oc od : string) (bol : bool) :
  octet_text oc = true -> octet_text od = true ->
  matcher false SsrfGuard.octets_tail bol (String "." (oc ++ String "." od))
          (fun b s => matcher false Eol b s (fun _ _ => true))
  = true.
Proof.
  intros Hc Hd. unfold SsrfGuard.octets_tail. rewrite matcher_Seq, matcher_Rep.
  apply repeat_matcher_again.
  rewrite matcher_Seq, matcher_dot_char. unfold Plus.
  apply matcher_octet; [right; reflexivity | exact Hc |].
  intros ?; cbv beta.
  replace (String.length (String "." od) <? String.length (String "." (oc ++ String "." od)))%nat
    with true
    by (symmetry; apply Nat.ltb_lt; simpl; rewrite length_append; simpl;
        apply octet_text_inv in Hc; lia).
  cbn [andb]. apply repeat_matcher_enough.
  rewrite matcher_Seq, matcher_dot_char. rewrite <- (append_empty od).
  apply matcher_octet; [right; reflexivity | exact Hd |].
  intros ?. reflexivity.
Qed.
Lemma privateIpRegex_blocks (a b c d : Z) :
  0 <= a <= 255 -> 0 <= b <= 255 -> 0 <= c <= 255 -> 0 <= d <= 255 ->
  in_private_ranges a b c d = true ->
  test false SsrfGuard.privateIpRegex (dotted_quad a b c d) = true.
Proof.
  intros Ha Hb Hc Hd Hin. apply search_head.
  pose proof (of_int_octet b Hb) as Hob.
  pose proof (of_int_octet c Hc) as Hoc.
  pose proof (of_int_octet d Hd) as Hod.
  unfold in_private_ranges in Hin.
  rewrite !orb_true_iff, !andb_true_iff, !Z.eqb_eq, !Z.leb_le in Hin.
  unfold SsrfGuard.privateIpRegex, dotted_quad. rewrite !matcher_Alt.
  destruct Hin as [[[-> | ->] | [[-> H16] H31]] | [-> ->]].
  - (* 127.b.c.d *)
    apply orb_true_iff. right. apply orb_true_iff. left.
    rewrite matcher_Seq.
    change (Js.of_int 127 ++ "." ++ Js.of_int b ++ "." ++ Js.of_int c ++ "." ++ Js.of_int d)
      with (String "1" (String "2" (String "7"
              (String "." (Js.of_int b ++ String "." (Js.of_int c ++ String "." (Js.of_int d))))))).
    change (matcher false SsrfGuard.octets_tail false
              (String "." (Js.of_int b ++ String "." (Js.of_int c ++ String "." (Js.of_int d))))
              (fun _ _ => true) = true).
    apply octets_tail_prefix. exact Hob.
  - (* 10.b.c.d *)
    apply orb_true_iff. right. apply orb_true_iff. right. apply orb_true_iff. left.
    rewrite matcher_Seq.
    change (matcher false SsrfGuard.octets_tail false
              (String "." (Js.of_int b ++ String "." (Js.of_int c ++ String "." (Js.of_int d))))
              (fun _ _ => true) = true).
    apply octets_tail_prefix. exact Hob.
  - (* 172.16-31.c.d *)
    apply orb_true_iff. right. apply orb_true_iff. right. apply orb_true_iff. right.
    apply orb_true_iff. left.
    assert (Hcases : b = 16 \/ b = 17 \/ b = 18 \/ b = 19 \/ b = 20 \/ b = 21 \/ b = 22
                     \/ b = 23 \/ b = 24 \/ b = 25 \/ b = 26 \/ b = 27 \/ b = 28
                     \/ b = 29 \/ b = 30 \/ b = 31) by lia.
    repeat (destruct Hcases as [-> | Hcases]); try subst b;
      (change (matcher false SsrfGuard.octets_tail false
                 (String "." (Js.of_int c ++ String "." (Js.of_int d)))
                 (fun _ _ => true) || false = true)
       || change (false || matcher false SsrfGuard.octets_tail false
                 (String "." (Js.of_int c ++ String "." (Js.of_int d)))
                 (fun _ _ => true) || false = true)
       || change (false || (false || matcher false SsrfGuard.octets_tail false
                 (String "." (Js.of_int c ++ String "." (Js.of_int d)))
                 (fun _ _ => true)) = true)
       || change (false || (matcher false SsrfGuard.octets_tail false
                 (String "." (Js.of_int c ++ String "." (Js.of_int d)))
                 (fun _ _ => true) || false) = true));
      rewrite octets_tail_prefix by exact Hoc; reflexivity.
  - (* 192.168.c.d *)
    apply orb_true_iff. right. apply orb_true_iff. right. apply orb_true_iff. right.
    apply orb_true_iff. right.
    rewrite !matcher_Seq.
    change (matcher false SsrfGuard.octets_tail false
              (String "." (Js.of_int c ++ String "." (Js.of_int d)))
              (fun b s => matcher false Eol b s (fun _ _ => true)) = true).
    apply octets_tail_whole; assumption.
Qed.

(** X13: every dotted quad of the four blocks (127/8, 10/8, 172.16/12 and
    192.168/16) is classified as private. *)
Lemma private_blocks_classified_private (a b c d : Z) :
  0 <= a <= 255 -> 0 <= b <= 255 -> 0 <= c <= 255 -> 0 <= d <= 255 ->
  in_private_ranges a b c d = true ->
  SsrfGuard.isPrivateTarget (dotted_quad a b c d) = true.
Proof.
  intros Ha Hb Hc Hd Hin. unfold SsrfGuard.isPrivateTarget.
  rewrite (privateIpRegex_blocks a b c d Ha Hb Hc Hd Hin).
  change (dotted_quad a b c d)
    with (Js.of_int a ++ String "." (Js.of_int b ++ String "."
            (Js.of_int c ++ String "." (Js.of_int d)))).
  rewrite ipRegex_dotted by (apply of_int_octet; assumption).
  reflexivity.
Qed.

(** C2: the private-address check also answers true for dotted quads outside
    the four blocks: 110.0.0.1 lies in none of them and is classified as
    private, because the alternatives of the pattern for 127, 10 and 172 are
    not anchored and match inside the text. *)
Theorem public_address_classified_private :
  dotted_quad 110 0 0 1 = "110.0.0.1" /\
  in_private_ranges 110 0 0 1 = false /\
  SsrfGuard.isPrivateTarget (dotted_quad 110 0 0 1) = true /\
  test false (Seq (Lit "10") SsrfGuard.octets_tail) "110.0.0.1" = true.
Proof. repeat split; vm_compute; reflexivity. Qed.

(** C7: [sendError] answers with a 302 redirect to the placeholder exactly
    when the accept header contains image/ and does not contain
    application/json; otherwise it answers with the status of the error and
    the JSON body made of success (false), the message and the status. *)
Theorem sendError_policy :
  forall (req : Request) (statusCode : Z) (message : string),
    let events := ImageProxy.sendError req statusCode message in
    response_status events = Some (if expects_image req then 302 else statusCode)
    /\ response_header "Location" events
       = (if expects_image req then Some ImageProxy.PLACEHOLDER_URL else None)
    /\ response_header "Content-Type" events
       = (if expects_image req then None else Some "application/json")
    /\ response_body events
       = (if expects_image req then EmptyString
          else Js.with_dquotes "{'success':false,'error':"
               ++ Json.quote message
               ++ Js.with_dquotes ",'code':" ++ Js.of_int statusCode ++ "}").
Proof.
  intros req statusCode message events. subst events.
  unfold ImageProxy.sendError, expects_image.
  destruct (Js.includes _ "image/" && negb (Js.includes _ "application/json")).
  - split; [| split; [| split]]; reflexivity.
  - split; [| split; [| split]]; try reflexivity.
    unfold response_body. rewrite append_empty.
    change (stringify (JObject [("success", JBool false); ("error", JString message);
                                ("code", JNumber statusCode)]))
      with (Js.with_dquotes "{'success':false,'error':"
            ++ (Json.quote message
                ++ Js.with_dquotes ",'code':" ++ Js.of_int statusCode) ++ "}").
    rewrite !append_assoc. reflexivity.
Qed.

Lemma sendError_no_fetch (req : Request) (statusCode : Z) (message : string) :
  existsb is_fetch (ImageProxy.sendError req statusCode message) = false.
Proof. unfold ImageProxy.sendError. destruct (_ && _); reflexivity. Qed.

Lemma sendError_status (req : Request) (statusCode : Z) (message : string) :
  response_status (ImageProxy.sendError req statusCode message)
  = Some (if expects_image req then 302 else statusCode).
Proof.
  unfold ImageProxy.sendError, expects_image. destruct (_ && _); reflexivity.
Qed.

Section ImageProxyFacts.

Import ImageProxy.

Variable env_IMAGE_MAX_BYTES : option string.
Variable env_ALLOWED_HOSTS : option string.
Variable env_RATE_LIMIT_PER_MIN : option string.
Variable URL_new : string -> option URL.
Variable fetch : FetchCall -> FetchResult.

Local Abbreviation handler :=
  (handler env_IMAGE_MAX_BYTES env_ALLOWED_HOSTS env_RATE_LIMIT_PER_MIN URL_new fetch).

Lemma image_deliver_no_fetch req r :
  existsb is_fetch (deliver env_IMAGE_MAX_BYTES req r) = false.
Proof.
  unfold deliver.
  destruct (negb (ok r)); [apply sendError_no_fetch |].
  destruct (too_large _ _); [apply sendError_no_fetch |].
  simpl. apply pipe_no_fetch.
Qed.

(** A run of the image handler that fetches passed every check, and what
    follows the fetch is decided by its outcome. *)
Lemma image_handler_fetch_inv m now req call :
  In (Fetch call) (snd (handler m now req)) ->
  snd (handler m now req) =
  Fetch call ::
  match fetch call with
  | Rejected message =>
      sendError req 502 ("Failed to fetch upstream image: " ++ message)
  | Resolved upstreamResponse => deliver env_IMAGE_MAX_BYTES req upstreamResponse
  end.
Proof.
  unfold ImageProxy.handler.
  destruct (String.eqb (method req) "OPTIONS").
  { intros H. apply in_fetch_existsb in H. discriminate H. }
  destruct (negb (String.eqb (method req) "GET")).
  { intros H. apply in_fetch_existsb in H. discriminate H. }
  destruct (RateLimiter.isRateLimited _ _ _ _) as [limited counts].
  cbn [snd].
  destruct limited.
  { intros H. apply in_fetch_existsb in H. rewrite sendError_no_fetch in H.
    discriminate H. }
  destruct (negb (Js.truthy _)).
  { intros H. apply in_fetch_existsb in H. rewrite sendError_no_fetch in H.
    discriminate H. }
  destruct (URL_new _) as [urlObj |].
  2:{ intros H. apply in_fetch_existsb in H. rewrite sendError_no_fetch in H.
      discriminate H. }
  destruct (negb _ && negb _).
  { intros H. apply in_fetch_existsb in H. rewrite sendError_no_fetch in H.
    discriminate H. }
  destruct (SsrfGuard.isPrivateTarget _).
  { intros H. apply in_fetch_existsb in H. rewrite sendError_no_fetch in H.
    discriminate H. }
  destruct (not_allowed _ _).
  { intros H. apply in_fetch_existsb in H. rewrite sendError_no_fetch in H.
    discriminate H. }
  intros [Heq | Hin].
  - injection Heq as <-. reflexivity.
  - apply in_fetch_existsb in Hin.
    destruct (fetch _) as [r | message].
    + rewrite image_deliver_no_fetch in Hin. discriminate Hin.
    + rewrite sendError_no_fetch in Hin. discriminate Hin.
Qed.

(** With a private target the handler ends before the fetch, whatever the
    method and the state of the limiter. *)
Lemma private_target_no_fetch m now req target urlObj :
  searchParams req !! "url" = Some target ->
  URL_new target = Some urlObj ->
  SsrfGuard.isPrivateTarget (hostname urlObj) = true ->
  existsb is_fetch (snd (handler m now req)) = false.
Proof.
  intros Htarget Hurl Hprivate. unfold ImageProxy.handler.
  destruct (String.eqb (method req) "OPTIONS"); [reflexivity |].
  destruct (negb (String.eqb (method req) "GET")); [reflexivity |].
  destruct (RateLimiter.isRateLimited _ _ _ _) as [limited counts].
  cbn [snd].
  destruct limited; [apply sendError_no_fetch |].
  rewrite Htarget.
  destruct (negb (Js.truthy _)) eqn:Hempty; [apply sendError_no_fetch |].
  assert (Hsame : Js.or_else (Some target) EmptyString = target).
  { unfold Js.or_else in *. destruct (Js.truthy target); [reflexivity |].
    discriminate Hempty. }
  rewrite Hsame, Hurl.
  destruct (negb _ && negb _); [apply sendError_no_fetch |].
  rewrite Hprivate. apply sendError_no_fetch.
Qed.

Lemma private_target_refused m now req target urlObj :
  searchParams req !! "url" = Some target ->
  URL_new target = Some urlObj ->
  SsrfGuard.isPrivateTarget (hostname urlObj) = true ->
  method req = "GET" ->
  fst (RateLimiter.isRateLimited env_RATE_LIMIT_PER_MIN m now (getIp req)) = false ->
  exists message, snd (handler m now req) = sendError req 400 message.
Proof.
  intros Htarget Hurl Hprivate Hget Hfree. unfold ImageProxy.handler.
  rewrite Hget. cbn [String.eqb Ascii.eqb Bool.eqb negb].
  destruct (RateLimiter.isRateLimited _ _ _ _) as [limited counts].
  cbn [fst] in Hfree. subst limited. cbn [snd].
  rewrite Htarget.
  destruct (negb (Js.truthy _)) eqn:Hempty; [eexists; reflexivity |].
  assert (Hsame : Js.or_else (Some target) EmptyString = target).
  { unfold Js.or_else in *. destruct (Js.truthy target); [reflexivity |].
    discriminate Hempty. }
  rewrite Hsame, Hurl.
  destruct (negb _ && negb _); [eexists; reflexivity |].
  rewrite Hprivate. eexists; reflexivity.
Qed.

End ImageProxyFacts.

(** C8: a request whose target URL has a hostname classified as private is
    answered without any fetch; when it is a GET that the limiter lets
    through, the answer is the error 400, sent as [sendError] sends it: the
    status 400 with a JSON body, or the redirect to the placeholder for a
    client that expects an image. *)
Theorem private_target_is_never_fetched :
  forall (env_IMAGE env_HOSTS env_RATE : option string)
         (URL_new : string -> option URL) (fetch : FetchCall -> FetchResult)
         (m : gmap string (list Z)) (now : Z) (req : Request)
         (target : string) (urlObj : URL),
    searchParams req !! "url" = Some target ->
    URL_new target = Some urlObj ->
    SsrfGuard.isPrivateTarget (hostname urlObj) = true ->
    let events :=
      snd (ImageProxy.handler env_IMAGE env_HOSTS env_RATE URL_new fetch m now req) in
    existsb is_fetch events = false
    /\ (method req = "GET" ->
        fst (RateLimiter.isRateLimited env_RATE m now (getIp req)) = false ->
        (exists message, events = ImageProxy.sendError req 400 message)
        /\ response_status events = Some (if expects_image req then 302 else 400)).
Proof.
  intros env_IMAGE env_HOSTS env_RATE URL_new fetch m now req target urlObj
         Htarget Hurl Hprivate events.
  split.
  - exact (private_target_no_fetch env_IMAGE env_HOSTS env_RATE URL_new fetch
             m now req target urlObj Htarget Hurl Hprivate).
  - intros Hget Hfree.
    destruct (private_target_refused env_IMAGE env_HOSTS env_RATE URL_new fetch
                m now req target urlObj Htarget Hurl Hprivate Hget Hfree)
      as [message Hrun].
    split.
    + exists message. exact Hrun.
    + subst events. rewrite Hrun. apply sendError_status.
Qed.

Lemma private_target_is_never_fetched_witness :
  let events :=
    snd (ImageProxy.handler None None None (fun _ => Some internal_url)
           (fun _ => Resolved partial_image) ∅ 1000
           (image_request "http://10.0.0.5/x.png")) in
  existsb is_fetch events = false /\ response_status events = Some 302.
Proof.
  pose proof (private_target_is_never_fetched None None None
                (fun _ => Some internal_url) (fun _ => Resolved partial_image)
                ∅ 1000 (image_request "http://10.0.0.5/x.png")
                "http://10.0.0.5/x.png" internal_url) as W.
  destruct W as [Hnone Hstatus].
  - reflexivity.
  - reflexivity.
  - vm_compute. reflexivity.
  - split.
    + exact Hnone.
    + apply Hstatus.
      * reflexivity.
      * vm_compute. reflexivity.
Defined.

(** C9: when the checks pass, the fetch succeeds with a status from 200 to
    299 and the declared content length does not exceed the limit, the
    status written to the client is 200, whatever the status of the
    upstream answer was. *)
Theorem image_success_status_is_200 :
  forall (env_IMAGE env_HOSTS env_RATE : option string)
         (URL_new : string -> option URL) (fetch : FetchCall -> FetchResult)
         (m : gmap string (list Z)) (now : Z) (req : Request)
         (call : FetchCall) (upstreamResponse : Response),
    In (Fetch call)
       (snd (ImageProxy.handler env_IMAGE env_HOSTS env_RATE URL_new fetch m now req)) ->
    fetch call = Resolved upstreamResponse ->
    200 <= status upstreamResponse <= 299 ->
    (forall (l : string) (n limit : Z),
        header_content_length upstreamResponse = Some l ->
        Js.parseInt l = Some n ->
        ImageProxy.IMAGE_MAX_BYTES env_IMAGE = Some limit ->
        n <= limit) ->
    let events :=
      snd (ImageProxy.handler env_IMAGE env_HOSTS env_RATE URL_new fetch m now req) in
    response_status events = Some 200
    /\ exists headers : gmap string string,
         events = Fetch call :: WriteHead 200 headers :: pipe (body upstreamResponse).
Proof.
  intros env_IMAGE env_HOSTS env_RATE URL_new fetch m now req call up
         Hfetch Hup Hok Hlength events.
  subst events.
  rewrite (image_handler_fetch_inv env_IMAGE env_HOSTS env_RATE URL_new fetch
             m now req call Hfetch), Hup.
  unfold ImageProxy.deliver, ok.
  replace (200 <=? status up) with true by (symmetry; apply Z.leb_le; lia).
  replace (status up <=? 299) with true by (symmetry; apply Z.leb_le; lia).
  cbn [andb negb].
  assert (Hfits : ImageProxy.too_large env_IMAGE (header_content_length up) = false).
  { unfold ImageProxy.too_large.
    destruct (header_content_length up) as [l |] eqn:Hl; [| reflexivity].
    destruct (Js.parseInt l) as [n |] eqn:Hn; [| apply andb_false_r].
    destruct (ImageProxy.IMAGE_MAX_BYTES env_IMAGE) as [limit |] eqn:Hlimit;
      [| apply andb_false_r].
    specialize (Hlength l n limit eq_refl Hn eq_refl).
    replace (limit <? n) with false by (symmetry; apply Z.ltb_ge; lia).
    apply andb_false_r. }
  rewrite Hfits. split.
  - reflexivity.
  - eexists. reflexivity.
Qed.

Lemma image_success_status_is_200_witness :
  response_status
    (snd (ImageProxy.handler None None None (fun _ => Some cdn_url)
            (fun _ => Resolved partial_image) ∅ 1000
            (image_request "https://cdn.example.com/covers/a.jpg")))
  = Some 200.
Proof.
  apply (image_success_status_is_200 None None None (fun _ => Some cdn_url)
           (fun _ => Resolved partial_image) ∅ 1000
           (image_request "https://cdn.example.com/covers/a.jpg")
           (ImageProxy.upstream_call "https://cdn.example.com/covers/a.jpg")
           partial_image).
  - vm_compute. left. reflexivity.
  - reflexivity.
  - simpl. lia.
  - intros l n limit Hl Hn Hlimit.
    injection Hl as <-. vm_compute in Hn. vm_compute in Hlimit.
    injection Hn as <-. injection Hlimit as <-. lia.
Defined.

(** ** The scenarios of the specification, run on the model *)

(** The upstream answers with a thumbnail under /uploads/: the gateway
    answers with the proxy reference and leaves the title alone. *)
Example scenario_rewritten_thumbnail :
  stringify
    (Gateway.recursiveRewrite (fun _ => Some upstream_url)
       (JObject [("thumbnail", JString "/uploads/a.jpg"); ("title", JString "X")])
       "https://U")
  = Js.with_dquotes
      "{'thumbnail':'/api/proxy-img?url=https%3A%2F%2FU%2Fuploads%2Fa.jpg','title':'X'}".
Proof. vm_compute. reflexivity. Qed.

Example scenario_private_targets :
  map SsrfGuard.isPrivateTarget
      ["192.168.1.5"; "127.0.0.1"; "localhost"; "foo.internal"; "10.0.0.5";
       "printer.local"; "example.com"; "8.8.8.8"; "172.32.0.1"]
  = [true; true; true; true; true; true; false; false; false].
Proof. vm_compute. reflexivity. Qed.

(** The sixty-first request of one client within a minute is refused. *)
Example scenario_sixty_first_request :
  fst (RateLimiter.calls None ∅
         (map (fun n => ("203.0.113.7", 1000 + Z.of_nat n)) (seq 0 61)))
  = (repeat false 60 ++ [true])%list.
Proof. vm_compute. reflexivity. Qed.

(** With an allow-list, a host outside it is refused with 403. *)
Example scenario_not_allow_listed :
  response_status
    (snd (ImageProxy.handler None (Some "example.com,cdn.example.org") None
            (fun _ => Some cdn_url) (fun _ => Resolved partial_image) ∅ 1000
            (image_request "https://cdn.example.com/covers/a.jpg")))
  = Some 302
  /\ snd (ImageProxy.handler None (Some "example.com,cdn.example.org") None
            (fun _ => Some cdn_url) (fun _ => Resolved partial_image) ∅ 1000
            (image_request "https://cdn.example.com/covers/a.jpg"))
     = ImageProxy.sendError (image_request "https://cdn.example.com/covers/a.jpg")
         403 "Hostname not allowed.".
Proof. split; vm_compute; reflexivity. Qed.

(** The decimal text of the numbers up to 999 reads back as the number. *)
Example decimal_text_reads_back :
  forallb (fun n => bool_decide (Js.parseInt (Js.of_int (Z.of_nat n)) = Some (Z.of_nat n)))
          (seq 0 1000) = true.
Proof. vm_compute. reflexivity. Qed.

(** * Further properties *)

(** ** The rate limiter over time *)

Section RateLimiterMore.

Import RateLimiter.
Variable env : option string.

Lemma isRateLimited_other (m : gmap string (list Z)) now ip ip' :
  ip <> ip' ->
  snd (isRateLimited env m now ip) !! ip' = m !! ip'.
Proof.
  intros Hne. rewrite isRateLimited_unfold.
  destruct (reaches _ _); simpl; [reflexivity |].
  apply lookup_insert_ne. exact Hne.
Qed.

Lemma recent_within (m : gmap string (list Z)) now ip :
  Forall (fun t => now - t < RATE_LIMIT_WINDOW_MS) (recent m now ip).
Proof.
  unfold recent. induction (default [] (m !! ip)) as [| t l IH]; simpl.
  - constructor.
  - destruct (now - t <? RATE_LIMIT_WINDOW_MS) eqn:Ht; [| exact IH].
    constructor; [apply Z.ltb_lt; exact Ht | exact IH].
Qed.

Lemma filter_all_false {A} (f : A -> bool) (l : list A) :
  Forall (fun x => f x = false) l -> List.filter f l = [].
Proof.
  induction 1 as [| x l Hx _ IH]; simpl; [reflexivity |].
  rewrite Hx. exact IH.
Qed.

Lemma filter_narrow {A} (f g : A -> bool) (l : list A) :
  (forall x, f x = true -> g x = true) ->
  List.filter f (List.filter g l) = List.filter f l.
Proof.
  intros Hfg. induction l as [| x l IH]; simpl; [reflexivity |].
  destruct (g x) eqn:Hg; simpl.
  - rewrite IH. reflexivity.
  - destruct (f x) eqn:Hf; [| exact IH].
    apply Hfg in Hf. congruence.
Qed.

Lemma filter_length_le {A} (f g : A -> bool) (l : list A) :
  Forall (fun x => f x = true -> g x = true) l ->
  (List.length (List.filter f l) <= List.length (List.filter g l))%nat.
Proof.
  induction 1 as [| x l Hx _ IH]; simpl; [lia |].
  destruct (f x) eqn:Hf.
  - rewrite (Hx eq_refl). simpl. lia.
  - destruct (g x); simpl; lia.
Qed.

Lemma history_ok_later L ip m A cur cur' :
  cur <= cur' -> history_ok L ip m A cur -> history_ok L ip m A cur'.
Proof.
  intros Hle (Hagree & Hpast & Hwin). split; [| split].
  - intros now Hnow. apply Hagree. lia.
  - eapply Forall_impl; [exact Hpast |]. simpl. intros t Ht. lia.
  - exact Hwin.
Qed.

Lemma history_ok_step L ip (m : gmap string (list Z)) A cur ip' now :
  RATE_LIMIT_PER_MIN env = Some L ->
  cur <= now ->
  history_ok L ip m A cur ->
  history_ok L ip (snd (isRateLimited env m now ip'))
    (A ++ (if negb (fst (isRateLimited env m now ip')) && String.eqb ip' ip
           then [now] else []))%list
    now.
Proof.
  intros HL Hle Hok.
  destruct (String.eqb_spec ip' ip) as [-> | Hne].
  2:{ rewrite andb_false_r, app_nil_r.
      destruct (history_ok_later L ip m A cur now Hle Hok) as (Hagree & Hpast & Hwin).
      split; [| split]; [| exact Hpast | exact Hwin].
      intros now' Hnow'. rewrite (Hagree now' Hnow'). unfold recent.
      rewrite (isRateLimited_other m now ip' ip Hne). reflexivity. }
  rewrite andb_true_r.
  destruct (fst (isRateLimited env m now ip)) eqn:Hans.
  - (* limited: nothing changes *)
    simpl. rewrite app_nil_r, (isRateLimited_limited env m now ip Hans).
    apply (history_ok_later L ip m A cur now Hle Hok).
  - (* granted *)
    simpl. rewrite (isRateLimited_admitted env m now ip Hans).
    assert (Hroom : Z.of_nat (List.length (recent m now ip)) < L).
    { destruct (Z.lt_ge_cases (Z.of_nat (List.length (recent m now ip))) L)
        as [Hlt | Hge]; [exact Hlt |].
      apply (isRateLimited_answer env m now ip L HL) in Hge. congruence. }
    destruct Hok as (Hagree & Hpast & Hwin).
    assert (Hpast' : Forall (fun t => t <= now) A).
    { eapply Forall_impl; [exact Hpast |]. simpl. intros t Ht. lia. }
    split; [| split].
    + intros now' Hnow'. unfold recent at 1. rewrite lookup_insert_eq. simpl default.
      rewrite !List.filter_app. f_equal.
      rewrite (Hagree now') by lia. unfold recent.
      symmetry. apply filter_narrow.
      intros t Ht. apply Z.ltb_lt in Ht. apply Z.ltb_lt. lia.
    + apply Forall_app. split; [exact Hpast' |]. constructor; [lia | constructor].
    + intros T. rewrite List.filter_app, length_app. simpl List.filter.
      unfold in_window at 2.
      destruct (Z.leb_spec now T) as [HT | HT].
      * (* the window ends at [now] or later *)
        assert (Hcount : (List.length (List.filter (in_window T) A)
                          <= List.length (recent m now ip))%nat).
        { rewrite <- (Hagree now Hle). apply filter_length_le.
          eapply Forall_impl; [exact Hpast' |]. simpl. intros t Ht.
          unfold in_window. rewrite andb_true_iff, !Z.ltb_lt. lia. }
        destruct (T - now <? RATE_LIMIT_WINDOW_MS); simpl; lia.
      * rewrite andb_false_r. simpl. specialize (Hwin T). lia.
Qed.

Lemma granted_history_ok L ip cs : forall (m : gmap string (list Z)) A cur,
  RATE_LIMIT_PER_MIN env = Some L ->
  times_nondecreasing cur cs ->
  history_ok L ip m A cur ->
  forall T,
    Z.of_nat (List.length (List.filter (in_window T) (A ++ granted env m cs ip)%list))
    <= L.
Proof.
  induction cs as [| [ip' now] cs IH]; intros m A cur HL Htimes Hok T.
  - simpl. rewrite app_nil_r. apply Hok.
  - destruct Htimes as [Hle Htimes]. simpl granted. rewrite app_assoc.
    apply (IH _ _ now HL Htimes).
    apply (history_ok_step L ip m A cur ip' now HL Hle Hok).
Qed.

End RateLimiterMore.

(** X1: when the clock never goes back, no client gets more requests let
    through within any 60 s than the limit, whatever the other clients do
    and although old times are dropped from the stored window. *)
Theorem granted_within_any_window_at_most_limit :
  forall (env : option string) (L : Z) (cs : list (string * Z)) (start : Z)
         (ip : string) (T : Z),
    RateLimiter.RATE_LIMIT_PER_MIN env = Some L ->
    0 <= L ->
    times_nondecreasing start cs ->
    Z.of_nat (List.length (List.filter (in_window T) (granted env ∅ cs ip))) <= L.
Proof.
  intros env L cs start ip T HL HL0 Htimes.
  apply (granted_history_ok env L ip cs ∅ [] start HL Htimes).
  split; [| split].
  - intros now _. reflexivity.
  - constructor.
  - intros T'. simpl. exact HL0.
Qed.

Lemma granted_within_any_window_at_most_limit_witness :
  Z.of_nat (List.length (List.filter (in_window 61500)
     (granted (Some "2") ∅
        [("203.0.113.7", 1000); ("203.0.113.7", 2000); ("198.51.100.9", 2500);
         ("203.0.113.7", 60999); ("203.0.113.7", 61000)] "203.0.113.7"))) <= 2.
Proof.
  apply (granted_within_any_window_at_most_limit (Some "2") 2
           [("203.0.113.7", 1000); ("203.0.113.7", 2000); ("198.51.100.9", 2500);
            ("203.0.113.7", 60999); ("203.0.113.7", 61000)] 0 "203.0.113.7" 61500).
  - reflexivity.
  - lia.
  - simpl. lia.
Defined.

(** X2: the calls of other clients leave the stored window of a client as
    it is. *)
Theorem other_clients_leave_window_untouched :
  forall (env : option string) (cs : list (string * Z))
         (m : gmap string (list Z)) (ip : string),
    Forall (fun c => fst c <> ip) cs ->
    snd (RateLimiter.calls env m cs) !! ip = m !! ip.
Proof.
  intros env cs. induction cs as [| [ip' now] cs IH]; intros m ip Hothers.
  - reflexivity.
  - apply Forall_cons in Hothers as [Hne Hothers]. simpl in Hne.
    simpl RateLimiter.calls.
    pose proof (isRateLimited_other env m now ip' ip Hne) as Hstep.
    destruct (RateLimiter.isRateLimited env m now ip') as [limited m1].
    simpl in Hstep. specialize (IH m1 ip Hothers).
    destruct (RateLimiter.calls env m1 cs) as [answers m2].
    simpl in *. rewrite IH. exact Hstep.
Qed.

Lemma other_clients_leave_window_untouched_witness :
  snd (RateLimiter.calls None {["203.0.113.7" := [500]]}
         [("198.51.100.9", 1000); ("192.0.2.1", 2000)]) !! "203.0.113.7"
  = ({["203.0.113.7" := [500]]} : gmap string (list Z)) !! "203.0.113.7".
Proof.
  apply (other_clients_leave_window_untouched None
           [("198.51.100.9", 1000); ("192.0.2.1", 2000)]
           {["203.0.113.7" := [500]]} "203.0.113.7").
  repeat constructor; simpl; discriminate.
Defined.

(** X3: a configured limit that does not parse to a number switches the
    limiter off: every call is let through. *)
Theorem unparsable_limit_never_limits :
  forall (env : option string) (cs : list (string * Z))
         (m : gmap string (list Z)),
    RateLimiter.RATE_LIMIT_PER_MIN env = None ->
    fst (RateLimiter.calls env m cs) = map (fun _ => false) cs.
Proof.
  intros env cs. induction cs as [| [ip now] cs IH]; intros m HL.
  - reflexivity.
  - simpl RateLimiter.calls. rewrite isRateLimited_unfold, HL. simpl.
    specialize (IH (<[ip := (recent m now ip ++ [now])%list]> m) HL).
    destruct (RateLimiter.calls env _ cs) as [answers m2].
    simpl in *. rewrite IH. reflexivity.
Qed.

Lemma unparsable_limit_never_limits_witness :
  fst (RateLimiter.calls (Some "sixty") ∅
         [("203.0.113.7", 1); ("203.0.113.7", 2); ("203.0.113.7", 3)])
  = [false; false; false].
Proof.
  apply (unparsable_limit_never_limits (Some "sixty")
           [("203.0.113.7", 1); ("203.0.113.7", 2); ("203.0.113.7", 3)] ∅).
  reflexivity.
Defined.

(** X4: with a limit of zero or less every call is refused and the map
    stays as it was. *)
Theorem nonpositive_limit_refuses_all :
  forall (env : option string) (L : Z) (cs : list (string * Z))
         (m : gmap string (list Z)),
    RateLimiter.RATE_LIMIT_PER_MIN env = Some L ->
    L <= 0 ->
    RateLimiter.calls env m cs = (map (fun _ => true) cs, m).
Proof.
  intros env L cs. induction cs as [| [ip now] cs IH]; intros m HL Hneg.
  - reflexivity.
  - simpl RateLimiter.calls. rewrite isRateLimited_unfold, HL.
    unfold RateLimiter.reaches.
    replace (L <=? Z.of_nat (List.length (recent m now ip))) with true
      by (symmetry; apply Z.leb_le; lia).
    rewrite (IH m HL Hneg). reflexivity.
Qed.

Lemma nonpositive_limit_refuses_all_witness :
  RateLimiter.calls (Some "0") ∅ [("203.0.113.7", 1); ("203.0.113.7", 70000)]
  = ([true; true], ∅).
Proof.
  apply (nonpositive_limit_refuses_all (Some "0") 0
           [("203.0.113.7", 1); ("203.0.113.7", 70000)] ∅).
  - reflexivity.
  - lia.
Defined.

(** X5: a client none of whose stored times lies within the window (a new
    client among them) is let through when the limit is at least one, and
    its window starts afresh with the current time alone. *)
Theorem stale_window_is_reset :
  forall (env : option string) (L : Z) (m : gmap string (list Z))
         (now : Z) (ip : string),
    RateLimiter.RATE_LIMIT_PER_MIN env = Some L ->
    1 <= L ->
    Forall (fun t => 60000 <= now - t) (default [] (m !! ip)) ->
    RateLimiter.isRateLimited env m now ip = (false, <[ip := [now]]> m).
Proof.
  intros env L m now ip HL HL1 Hstale.
  assert (Hrecent : recent m now ip = []).
  { unfold recent. apply filter_all_false.
    eapply Forall_impl; [exact Hstale |]. simpl. intros t Ht.
    apply Z.ltb_ge. change RateLimiter.RATE_LIMIT_WINDOW_MS with 60000. exact Ht. }
  rewrite isRateLimited_unfold, HL, Hrecent. unfold RateLimiter.reaches. simpl.
  replace (L <=? Z.of_nat 0) with false by (symmetry; apply Z.leb_gt; lia).
  reflexivity.
Qed.

Lemma stale_window_is_reset_witness :
  RateLimiter.isRateLimited (Some "2") {["203.0.113.7" := [1000; 2000]]} 62000
    "203.0.113.7"
  = (false, <["203.0.113.7" := [62000]]> {["203.0.113.7" := [1000; 2000]]}).
Proof.
  apply (stale_window_is_reset (Some "2") 2 {["203.0.113.7" := [1000; 2000]]}
           62000 "203.0.113.7").
  - reflexivity.
  - lia.
  - repeat constructor; simpl; lia.
Defined.

(** ** The rewriter on whole trees *)

Lemma JsonValue_nested_ind (P : JsonValue -> Prop) :
  P JNull -> (forall b, P (JBool b)) -> (forall n, P (JNumber n)) ->
  (forall s, P (JString s)) ->
  (forall items, Forall P items -> P (JArray items)) ->
  (forall fields, Forall (fun kv => P (snd kv)) fields -> P (JObject fields)) ->
  forall t, P t.
Proof.
  intros HNull HBool HNumber HString HArray HObject.
  fix IH 1. intros [| b | n | s | items | fields].
  - exact HNull.
  - apply HBool.
  - apply HNumber.
  - apply HString.
  - apply HArray. induction items as [| v items IHitems]; constructor.
    + apply IH.
    + exact IHitems.
  - apply HObject. induction fields as [| kv fields IHfields]; constructor.
    + apply IH.
    + exact IHfields.
Qed.

Section RewriterMore.

Import Gateway.
Variable URL_new : string -> option URL.
Variable upstreamOrigin : string.

Local Abbreviation rewrite := (fun t => recursiveRewrite URL_new t upstreamOrigin).

Lemma recursiveRewrite_skeleton (t : JsonValue) :
  skeleton (recursiveRewrite URL_new t upstreamOrigin) = skeleton t.
Proof.
  induction t as [| b | n | s | items IH | fields IH] using JsonValue_nested_ind;
    try reflexivity.
  - cbn [recursiveRewrite skeleton]. f_equal.
    induction IH as [| v items Hv _ IHitems]; [reflexivity |].
    cbn [map]. f_equal; [exact Hv | exact IHitems].
  - cbn [recursiveRewrite skeleton]. f_equal.
    induction IH as [| [key v] fields Hv _ IHfields]; [reflexivity |].
    cbn [map]. f_equal; [| exact IHfields].
    cbn [fst snd] in *. f_equal.
    destruct v; try reflexivity; exact Hv.
Qed.

Lemma recursiveRewrite_property_strings (t : JsonValue) :
  property_strings (recursiveRewrite URL_new t upstreamOrigin)
  = map (rewriteString URL_new upstreamOrigin) (property_strings t).
Proof.
  induction t as [| b | n | s | items IH | fields IH] using JsonValue_nested_ind;
    try reflexivity.
  - cbn [recursiveRewrite property_strings].
    induction IH as [| v items Hv _ IHitems]; [reflexivity |].
    cbn [map concat]. rewrite map_app. f_equal; [exact Hv | exact IHitems].
  - cbn [recursiveRewrite property_strings].
    induction IH as [| [key v] fields Hv _ IHfields]; [reflexivity |].
    cbn [map concat]. rewrite map_app. f_equal; [| exact IHfields].
    cbn [fst snd] in *.
    destruct v; try reflexivity; exact Hv.
Qed.

Lemma recursiveRewrite_element_strings (t : JsonValue) :
  element_strings (recursiveRewrite URL_new t upstreamOrigin) = element_strings t.
Proof.
  induction t as [| b | n | s | items IH | fields IH] using JsonValue_nested_ind;
    try reflexivity.
  - cbn [recursiveRewrite element_strings].
    induction IH as [| v items Hv _ IHitems]; [reflexivity |].
    cbn [map concat]. f_equal; [| exact IHitems].
    destruct v; try reflexivity; exact Hv.
  - cbn [recursiveRewrite element_strings].
    induction IH as [| [key v] fields Hv _ IHfields]; [reflexivity |].
    cbn [map concat]. f_equal; [| exact IHfields].
    cbn [fst snd] in *.
    destruct v; try reflexivity; exact Hv.
Qed.

Lemma recursiveRewrite_fixed (t : JsonValue) :
  Forall (fun v => rewriteString URL_new upstreamOrigin v = v) (property_strings t) ->
  recursiveRewrite URL_new t upstreamOrigin = t.
Proof.
  induction t as [| b | n | s | items IH | fields IH] using JsonValue_nested_ind;
    try reflexivity.
  - cbn [recursiveRewrite property_strings]. intros Hall. f_equal.
    induction IH as [| v items Hv _ IHitems]; [reflexivity |].
    cbn [map concat] in *. apply Forall_app in Hall as [Hhere Hrest].
    f_equal; [exact (Hv Hhere) | exact (IHitems Hrest)].
  - cbn [recursiveRewrite property_strings]. intros Hall. f_equal.
    induction IH as [| [key v] fields Hv _ IHfields]; [reflexivity |].
    cbn [map concat] in *. apply Forall_app in Hall as [Hhere Hrest].
    f_equal; [| exact (IHfields Hrest)].
    cbn [fst snd] in *. f_equal.
    destruct v; try reflexivity.
    + apply Forall_cons in Hhere as [Hs _]. rewrite Hs. reflexivity.
    + apply Hv. exact Hhere.
    + apply Hv. exact Hhere.
Qed.

End RewriterMore.

(** X6: the rewriter changes strings only: the nesting, the keys and their
    order, the lengths of the arrays and every value that is not a string
    are as before. *)
Theorem rewrite_keeps_structure :
  forall (URL_new : string -> option URL) (t : JsonValue) (upstreamOrigin : string),
    skeleton (Gateway.recursiveRewrite URL_new t upstreamOrigin) = skeleton t.
Proof. intros URL_new t upstreamOrigin. apply recursiveRewrite_skeleton. Qed.

(** X7: the string rule is applied to every string that is the value of a
    property, at any depth and also in objects inside arrays, and to
    nothing else: the strings that are elements of arrays stay as they
    are. *)
Theorem string_rule_reaches_property_values :
  forall (URL_new : string -> option URL) (t : JsonValue) (upstreamOrigin : string),
    property_strings (Gateway.recursiveRewrite URL_new t upstreamOrigin)
    = map (Gateway.rewriteString URL_new upstreamOrigin) (property_strings t)
    /\ element_strings (Gateway.recursiveRewrite URL_new t upstreamOrigin)
       = element_strings t.
Proof.
  intros URL_new t upstreamOrigin. split.
  - apply recursiveRewrite_property_strings.
  - apply recursiveRewrite_element_strings.
Qed.

(** X8: a tree in which every property string is either unmarked or
    rejected by the URL constructor comes back unchanged; a malformed
    candidate does no harm. *)
Theorem tree_without_candidates_unchanged :
  forall (URL_new : string -> option URL) (t : JsonValue) (upstreamOrigin : string),
    Forall (fun v => Gateway.needsRewrite upstreamOrigin v = false
                     \/ URL_new (Gateway.originalUrl upstreamOrigin v) = None)
           (property_strings t) ->
    Gateway.recursiveRewrite URL_new t upstreamOrigin = t.
Proof.
  intros URL_new t upstreamOrigin Hall. apply recursiveRewrite_fixed.
  eapply Forall_impl; [exact Hall |]. cbv beta. intros v [Hv | Hv].
  - apply rewriteString_unmarked. exact Hv.
  - unfold Gateway.rewriteString. rewrite Hv.
    destruct (Gateway.needsRewrite upstreamOrigin v); reflexivity.
Qed.

Lemma tree_without_candidates_unchanged_witness :
  Gateway.recursiveRewrite (fun _ => None) catalog_tree "https://www.sankavollerei.com"
  = catalog_tree.
Proof.
  apply (tree_without_candidates_unchanged (fun _ => None) catalog_tree
           "https://www.sankavollerei.com").
  repeat (constructor; [right; reflexivity |]). constructor.
Defined.

Example catalog_tree_rewritten :
  stringify (Gateway.recursiveRewrite (fun _ => Some cdn_url) catalog_tree "https://U")
  = Js.with_dquotes
      "{'title':'Solo Leveling','cover':'/api/proxy-img?url=https%3A%2F%2FU%2Fuploads%2Fsolo.jpg','pages':['https://cdn.example.com/p/1.png'],'chapters':[{'number':1,'thumb':'/api/proxy-img?url=https%3A%2F%2Fcdn.example.com%2Ft%2F1.webp'}]}".
Proof. vm_compute. reflexivity. Qed.

(** ** The string rule and its patterns *)

Lemma all_chars_app p s1 s2 :
  all_chars p (s1 ++ s2) = all_chars p s1 && all_chars p s2.
Proof.
  induction s1 as [| a s1 IH]; [reflexivity |].
  change (p a && all_chars p (s1 ++ s2) = p a && all_chars p s1 && all_chars p s2).
  rewrite IH, andb_assoc. reflexivity.
Qed.

(** The escape of one code unit, as [encodeURIComponent] writes it. *)
Lemma encodeURIComponent_cons a s :
  Gateway.encodeURIComponent (String a s)
  = Gateway.encodeURIComponent (String a EmptyString) ++ Gateway.encodeURIComponent s.
Proof.
  cbn [Gateway.encodeURIComponent]. rewrite append_empty. reflexivity.
Qed.

Lemma encode_one_safe a :
  all_chars url_safe (Gateway.encodeURIComponent (String a EmptyString)) = true.
Proof.
  destruct a as [[] [] [] [] [] [] [] []]; vm_compute; reflexivity.
Qed.

Lemma encodeURIComponent_safe s :
  all_chars url_safe (Gateway.encodeURIComponent s) = true.
Proof.
  induction s as [| a s IH]; [reflexivity |].
  rewrite encodeURIComponent_cons, all_chars_app, encode_one_safe, IH. reflexivity.
Qed.

Lemma decode_one a rest :
  percent_decode (Gateway.encodeURIComponent (String a EmptyString) ++ rest)
  = String a (percent_decode rest).
Proof.
  destruct a as [[] [] [] [] [] [] [] []]; reflexivity.
Qed.

Lemma percent_decode_encode s :
  percent_decode (Gateway.encodeURIComponent s) = s.
Proof.
  induction s as [| a s IH]; [reflexivity |].
  rewrite encodeURIComponent_cons, decode_one, IH. reflexivity.
Qed.

Lemma contains_ci_unfold s p :
  contains_ci s p
  = starts_with_ci s p
    || match s with EmptyString => false | String _ s' => contains_ci s' p end.
Proof. destruct s; reflexivity. Qed.

Lemma starts_with_ci_longer (p q : string) : forall s,
  starts_with_ci s (p ++ q) = true -> contains_ci s q = true.
Proof.
  induction p as [| b p IH]; intros s H.
  - rewrite contains_ci_unfold. change (EmptyString ++ q) with q in H.
    rewrite H. reflexivity.
  - change (String b p ++ q) with (String b (p ++ q)) in H.
    destruct s as [| a s]; [discriminate H |].
    cbn [starts_with_ci] in H. apply andb_true_iff in H as [_ H].
    rewrite contains_ci_unfold, (IH s H). apply orb_true_r.
Qed.

Lemma contains_ci_longer (p q : string) : forall s,
  contains_ci s (p ++ q) = true -> contains_ci s q = true.
Proof.
  induction s as [| a s IH]; intros H; rewrite contains_ci_unfold in H;
    apply orb_true_iff in H as [H | H].
  - exact (starts_with_ci_longer p q _ H).
  - discriminate H.
  - exact (starts_with_ci_longer p q _ H).
  - rewrite contains_ci_unfold, (IH H). apply orb_true_r.
Qed.

Lemma UPLOAD_HEURISTICS_uploads (s : string) :
  test true Gateway.UPLOAD_HEURISTICS s = contains_ci s "/uploads/".
Proof.
  rewrite UPLOAD_HEURISTICS_contains.
  destruct (contains_ci s "/uploads/") eqn:Hshort; [reflexivity |].
  destruct (contains_ci s "/wp-content/uploads/") eqn:Hlong; [| reflexivity].
  apply (contains_ci_longer "/wp-content" "/uploads/") in Hlong. congruence.
Qed.

Lemma is_absolute_not_relative (v : string) :
  Gateway.is_absolute v = true -> Js.startsWith v "/" = false.
Proof.
  destruct v as [| a v]; [reflexivity |].
  unfold Gateway.is_absolute. cbn [Js.startsWith].
  destruct (Ascii.eqb_spec a "/") as [-> | _]; [| reflexivity].
  intros H. discriminate H.
Qed.

(** X10: the upload-path pattern accepts exactly the strings that contain
    /uploads/ in any case of the letters; its longer alternative adds
    nothing. *)
Theorem upload_heuristic_is_uploads_substring :
  forall s : string,
    test true Gateway.UPLOAD_HEURISTICS s = contains_ci s "/uploads/".
Proof. exact UPLOAD_HEURISTICS_uploads. Qed.

(** X9: a string that does not begin with a slash is judged as it stands,
    whatever the upstream origin: it is marked exactly when it starts with
    http:// or https:// and matches the image-extension pattern or contains
    /uploads/, and a marked one is replaced when the URL constructor accepts
    it. *)
Theorem string_without_leading_slash :
  forall (URL_new : string -> option URL) (upstreamOrigin value : string),
    Js.startsWith value "/" = false ->
    Gateway.needsRewrite upstreamOrigin value
    = Gateway.is_absolute value
      && (test true Gateway.IMAGE_EXTENSIONS value || contains_ci value "/uploads/")
    /\ Gateway.rewriteString URL_new upstreamOrigin value
       = (if Gateway.is_absolute value
             && (test true Gateway.IMAGE_EXTENSIONS value
                 || contains_ci value "/uploads/")
          then match URL_new value with
               | Some _ => "/api/proxy-img?url=" ++ Gateway.encodeURIComponent value
               | None => value
               end
          else value).
Proof.
  intros URL_new upstreamOrigin value Hrel.
  assert (Hmark : Gateway.needsRewrite upstreamOrigin value
                  = Gateway.is_absolute value
                    && (test true Gateway.IMAGE_EXTENSIONS value
                        || contains_ci value "/uploads/")).
  { unfold Gateway.needsRewrite, Gateway.originalUrl. rewrite Hrel.
    rewrite UPLOAD_HEURISTICS_uploads.
    destruct (Gateway.is_absolute value), (test true Gateway.IMAGE_EXTENSIONS value),
             (contains_ci value "/uploads/"); reflexivity. }
  split; [exact Hmark |].
  unfold Gateway.rewriteString. rewrite Hmark.
  unfold Gateway.originalUrl. rewrite Hrel. reflexivity.
Qed.

(** X12: whatever the string rule puts in place of a string is the proxy
    path followed by a parameter that holds only unreserved characters and
    percent signs, and percent-decoding the parameter gives the resolved
    URL back. *)
Theorem proxy_reference_is_safe_and_reversible :
  forall (URL_new : string -> option URL) (upstreamOrigin value : string),
    Gateway.rewriteString URL_new upstreamOrigin value = value
    \/ exists parameter,
         Gateway.rewriteString URL_new upstreamOrigin value
         = "/api/proxy-img?url=" ++ parameter
         /\ all_chars url_safe parameter = true
         /\ percent_decode parameter = Gateway.originalUrl upstreamOrigin value.
Proof.
  intros URL_new upstreamOrigin value. unfold Gateway.rewriteString.
  destruct (Gateway.needsRewrite upstreamOrigin value); [| left; reflexivity].
  destruct (URL_new _); [| left; reflexivity].
  right. exists (Gateway.encodeURIComponent (Gateway.originalUrl upstreamOrigin value)).
  split; [reflexivity |].
  split; [apply encodeURIComponent_safe | apply percent_decode_encode].
Qed.

Lemma string_without_leading_slash_witness :
  Gateway.needsRewrite "https://www.sankavollerei.com" "ftp://files.example.com/a.png"
  = Gateway.is_absolute "ftp://files.example.com/a.png"
    && (test true Gateway.IMAGE_EXTENSIONS "ftp://files.example.com/a.png"
        || contains_ci "ftp://files.example.com/a.png" "/uploads/").
Proof.
  apply (proj1 (string_without_leading_slash (fun _ => Some ftp_url)
                  "https://www.sankavollerei.com" "ftp://files.example.com/a.png"
                  eq_refl)).
Defined.

Lemma matcher_Lit_strip (p : string) : forall (s : string) (bol : bool) k,
  p <> EmptyString ->
  matcher true (Lit p) bol s k
  = match strip_ci s p with Some rest => k false rest | None => false end.
Proof.
  induction p as [| b p IH]; intros s bol k Hp; [congruence |].
  destruct p as [| b' p].
  - destruct s as [| a s]; [reflexivity |].
    cbn [Lit matcher strip_ci]. destruct (chr_eq true b a); reflexivity.
  - change (Lit (String b (String b' p))) with (Seq (Chr b) (Lit (String b' p))).
    destruct s as [| a s]; [reflexivity |].
    rewrite matcher_Seq.
    change (chr_eq true b a
            && matcher true (Lit (String b' p)) false s k
            = match (if chr_eq true b a then strip_ci s (String b' p) else None) with
              | Some rest => k false rest
              | None => false
              end).
    rewrite IH by discriminate.
    destruct (chr_eq true b a); reflexivity.
Qed.

(** The dot under a star, followed by the end of the input. *)
Lemma star_dot_to_end (k : bool -> string -> bool) :
  (forall b s, k b s = match s with EmptyString => true | String _ _ => false end) ->
  forall (q : string) (n : nat) (bol : bool),
    (String.length q <= n)%nat ->
    repeat_matcher (matcher true Dot) k n 0 bol q = all_chars not_line_terminator q.
Proof.
  intros Hk. induction q as [| a q IH]; intros n bol Hn.
  - destruct n; cbn [repeat_matcher]; rewrite Hk; reflexivity.
  - destruct n as [| n]; [simpl in Hn; lia |].
    cbn [repeat_matcher matcher]. rewrite Hk.
    replace (String.length q <? String.length (String a q))%nat with true
      by (symmetry; apply Nat.ltb_lt; simpl; lia).
    rewrite IH by (simpl in Hn; lia). reflexivity.
Qed.

Lemma optional_query_to_end (rest : string) (bol : bool) :
  matcher true (Seq (Opt (Seq (Chr "?") (Star Dot))) Eol) bol rest (fun _ _ => true)
  = query_or_end rest.
Proof.
  rewrite matcher_Seq. unfold Opt. rewrite matcher_Rep.
  destruct rest as [| a q]; [reflexivity |].
  cbn [repeat_matcher]. rewrite matcher_Seq.
  change (matcher true Eol bol (String a q) (fun _ _ => true)) with false.
  cbn [orb matcher]. unfold query_or_end. f_equal.
  unfold Star. rewrite matcher_Rep.
  apply star_dot_to_end; [| simpl; lia].
  intros b s. destruct s as [| c s]; [reflexivity |].
  cbn [matcher orb]. apply andb_false_r.
Qed.

Lemma IMAGE_EXTENSIONS_at (s : string) (bol : bool) :
  matcher true Gateway.IMAGE_EXTENSIONS bol s (fun _ _ => true)
  = match s with
    | EmptyString => false
    | String a s' =>
        chr_eq true "." a
        && existsb (fun e => match strip_ci s' e with
                             | Some rest => query_or_end rest
                             | None => false
                             end) image_extensions
    end.
Proof.
  unfold Gateway.IMAGE_EXTENSIONS. rewrite matcher_Seq.
  destruct s as [| a s']; [reflexivity |].
  match goal with
  | |- matcher true (Chr ".") bol (String a s') ?k = _ =>
      change (chr_eq true "." a && k false s' = chr_eq true "." a
              && existsb (fun e => match strip_ci s' e with
                                   | Some rest => query_or_end rest
                                   | None => false
                                   end) image_extensions)
  end.
  f_equal. cbv beta.
  rewrite matcher_Seq, !matcher_Alt, !matcher_Lit_strip by discriminate.
  unfold image_extensions. cbn [existsb].
  rewrite orb_false_r.
  repeat match goal with
  | |- context [strip_ci s' ?e] =>
      lazymatch goal with
      | |- context [match strip_ci s' e with Some rest => matcher _ _ _ rest _ | None => _ end] =>
          destruct (strip_ci s' e) as [?rest |] eqn:?;
          [rewrite optional_query_to_end |]
      end
  end; reflexivity.
Qed.

Lemma IMAGE_EXTENSIONS_search (s : string) : forall bol : bool,
  search true Gateway.IMAGE_EXTENSIONS bol s = ends_like_image s.
Proof.
  induction s as [| a s IH]; intros bol.
  - reflexivity.
  - change (search true Gateway.IMAGE_EXTENSIONS bol (String a s))
      with (matcher true Gateway.IMAGE_EXTENSIONS bol (String a s) (fun _ _ => true)
            || search true Gateway.IMAGE_EXTENSIONS false s).
    rewrite IMAGE_EXTENSIONS_at, IH. reflexivity.
Qed.

Lemma IMAGE_EXTENSIONS_ends_like_image (s : string) :
  test true Gateway.IMAGE_EXTENSIONS s = ends_like_image s.
Proof. apply IMAGE_EXTENSIONS_search. Qed.

Lemma chr_eq_dot a : chr_eq true "." a = true <-> a = "."%char.
Proof.
  destruct a as [[] [] [] [] [] [] [] []]; vm_compute; split; congruence.
Qed.

Lemma chr_eq_question a : chr_eq true "?" a = true <-> a = "?"%char.
Proof.
  destruct a as [[] [] [] [] [] [] [] []]; vm_compute; split; congruence.
Qed.

Lemma strip_ci_spec (p : string) : forall s rest,
  strip_ci s p = Some rest <->
  exists x, s = x ++ rest /\ uppercase x = uppercase p.
Proof.
  induction p as [| b p IH]; intros s rest.
  - cbn [strip_ci]. split.
    + intros [= ->]. exists EmptyString. split; reflexivity.
    + intros (x & -> & Hx). destruct x; [reflexivity | discriminate Hx].
  - destruct s as [| a s]; cbn [strip_ci].
    + split; [discriminate |].
      intros (x & Hs & Hx). destruct x; discriminate.
    + unfold chr_eq. destruct (Ascii.eqb_spec (upcase b) (upcase a)) as [Hab | Hab].
      * rewrite IH. split.
        -- intros (x & -> & Hx). exists (String a x). split; [reflexivity |].
           cbn [uppercase]. rewrite Hx, Hab. reflexivity.
        -- intros (x & Hs & Hx). destruct x as [| a' x]; [discriminate Hx |].
           cbn [uppercase] in Hx. injection Hx as Ha Hx.
           change (String a' x ++ rest) with (String a' (x ++ rest)) in Hs.
           injection Hs as -> ->. exists x. split; [reflexivity | exact Hx].
      * split; [discriminate |].
        intros (x & Hs & Hx). destruct x as [| a' x]; [discriminate Hx |].
        cbn [uppercase] in Hx. injection Hx as Ha Hx.
        change (String a' x ++ rest) with (String a' (x ++ rest)) in Hs.
        injection Hs as -> ->. congruence.
Qed.

Lemma query_or_end_spec rest :
  query_or_end rest = true <->
  rest = EmptyString \/
  exists q, rest = String "?" q /\ all_chars not_line_terminator q = true.
Proof.
  destruct rest as [| a q]; cbn [query_or_end].
  - split; [left; reflexivity | reflexivity].
  - rewrite andb_true_iff, chr_eq_question. split.
    + intros [-> Hq]. right. exists q. split; [reflexivity | exact Hq].
    + intros [H | (q' & [= -> ->] & Hq)]; [discriminate H |]. split; [reflexivity | exact Hq].
Qed.

Lemma ends_like_image_spec s :
  ends_like_image s = true <->
  exists before s',
    s = before ++ String "." s' /\
    existsb (fun e => match strip_ci s' e with
                      | Some rest => query_or_end rest
                      | None => false
                      end) image_extensions = true.
Proof.
  induction s as [| a s IH]; cbn [ends_like_image].
  - split; [discriminate |].
    intros (before & s' & Hs & _). destruct before; discriminate.
  - rewrite orb_true_iff, andb_true_iff, chr_eq_dot, IH. split.
    + intros [[-> Hhere] | (before & s' & -> & Hthere)].
      * exists EmptyString, s. split; [reflexivity | exact Hhere].
      * exists (String a before), s'. split; [reflexivity | exact Hthere].
    + intros (before & s' & Hs & H). destruct before as [| a' before].
      * change (EmptyString ++ String "." s') with (String "." s') in Hs.
        injection Hs as -> ->. left. split; [reflexivity | exact H].
      * change (String a' before ++ String "." s')
          with (String a' (before ++ String "." s')) in Hs.
        injection Hs as -> ->. right. exists before, s'. split; [reflexivity | exact H].
Qed.

(** X11: the image-extension pattern accepts exactly the strings in which, at
    some dot, one of the seven extensions follows in any case of the
    letters, and after it the string ends or a question mark and a query
    without line terminators run to the end. *)
Theorem image_extension_pattern_accepts :
  forall s : string,
    test true Gateway.IMAGE_EXTENSIONS s = true <->
    exists before ext after,
      s = before ++ "." ++ ext ++ after /\
      In (uppercase ext) ["JPG"; "JPEG"; "PNG"; "WEBP"; "AVIF"; "GIF"; "SVG"] /\
      (after = EmptyString \/
       exists q, after = "?" ++ q /\ all_chars not_line_terminator q = true).
Proof.
  intros s. rewrite IMAGE_EXTENSIONS_ends_like_image, ends_like_image_spec. split.
  - intros (before & s' & -> & H).
    apply existsb_exists in H as (e & He & H).
    destruct (strip_ci s' e) as [rest |] eqn:Hstrip; [| discriminate H].
    apply strip_ci_spec in Hstrip as (ext & -> & Hext).
    exists before, ext, rest. split; [reflexivity |]. split.
    + rewrite Hext. change ["JPG"; "JPEG"; "PNG"; "WEBP"; "AVIF"; "GIF"; "SVG"]
        with (map uppercase image_extensions).
      apply in_map. exact He.
    + apply query_or_end_spec. exact H.
  - intros (before & ext & after & -> & Hext & Hafter).
    exists before, (ext ++ after). split; [reflexivity |].
    change ["JPG"; "JPEG"; "PNG"; "WEBP"; "AVIF"; "GIF"; "SVG"]
      with (map uppercase image_extensions) in Hext.
    apply in_map_iff in Hext as (e & He & Hin).
    apply existsb_exists. exists e. split; [exact Hin |].
    assert (Hstrip : strip_ci (ext ++ after) e = Some after).
    { apply strip_ci_spec. exists ext. split; [reflexivity | symmetry; exact He]. }
    rewrite Hstrip. apply query_or_end_spec. exact Hafter.
Qed.

(** ** Names, notations and the allow-list *)

Lemma rev_onto_append (s acc : string) :
  Js.rev_onto s acc = Js.reverse s ++ acc.
Proof.
  unfold Js.reverse. revert acc. induction s as [| a s IH]; intros acc.
  - reflexivity.
  - cbn [Js.rev_onto]. rewrite (IH (String a acc)), (IH (String a EmptyString)).
    rewrite append_assoc. reflexivity.
Qed.

Lemma rev_onto_of_append (p s : string) : forall acc,
  Js.rev_onto (p ++ s) acc = Js.rev_onto s (Js.rev_onto p acc).
Proof.
  induction p as [| a p IH]; intros acc; [reflexivity |].
  change (String a p ++ s) with (String a (p ++ s)). cbn [Js.rev_onto]. apply IH.
Qed.

Lemma reverse_append (p s : string) :
  Js.reverse (p ++ s) = Js.reverse s ++ Js.reverse p.
Proof.
  unfold Js.reverse at 1. rewrite rev_onto_of_append, rev_onto_append. reflexivity.
Qed.

Lemma reverse_cons (a : ascii) (s : string) :
  Js.reverse (String a s) = Js.reverse s ++ String a EmptyString.
Proof. apply (reverse_append (String a EmptyString) s). Qed.

Lemma startsWith_append (x y : string) : Js.startsWith (x ++ y) x = true.
Proof.
  induction x as [| a x IH]; [destruct y; reflexivity |].
  change (String a x ++ y) with (String a (x ++ y)). cbn [Js.startsWith].
  rewrite Ascii.eqb_refl, IH. reflexivity.
Qed.

Lemma endsWith_append (p s : string) : Js.endsWith (p ++ s) s = true.
Proof.
  unfold Js.endsWith. rewrite reverse_append. apply startsWith_append.
Qed.

(** X14: localhost and every name that ends with .local or .internal is
    classified as private. *)
Theorem internal_names_are_private :
  forall name : string,
    SsrfGuard.isPrivateTarget "localhost" = true
    /\ SsrfGuard.isPrivateTarget (name ++ ".local") = true
    /\ SsrfGuard.isPrivateTarget (name ++ ".internal") = true.
Proof.
  intros name. split; [vm_compute; reflexivity |].
  unfold SsrfGuard.isPrivateTarget. rewrite !endsWith_append.
  split.
  - destruct (_ && _); [reflexivity |]. rewrite orb_true_r. reflexivity.
  - destruct (_ && _); [reflexivity |]. rewrite orb_true_r. reflexivity.
Qed.

Lemma matcher_not_digit a s k bol :
  Js.is_digit a = false ->
  matcher false SsrfGuard.digit bol (String a s) k = false.
Proof.
  intros Ha. cbn [SsrfGuard.digit matcher]. unfold Js.is_digit in Ha.
  change (Js.code "0") with 48. change (Js.code "9") with 57. rewrite Ha. reflexivity.
Qed.

Lemma ipRegex_needs_start (s : string) :
  search false SsrfGuard.ipRegex false s = false.
Proof.
  induction s as [| a s IH]; [reflexivity |].
  change (search false SsrfGuard.ipRegex false (String a s))
    with (false || search false SsrfGuard.ipRegex false s).
  exact IH.
Qed.

Lemma ipRegex_needs_digit (a : ascii) (s : string) :
  Js.is_digit a = false -> test false SsrfGuard.ipRegex (String a s) = false.
Proof.
  intros Ha. unfold test.
  change (search false SsrfGuard.ipRegex true (String a s))
    with (matcher false SsrfGuard.ipRegex true (String a s) (fun _ _ => true)
          || search false SsrfGuard.ipRegex false s).
  rewrite ipRegex_needs_start, orb_false_r.
  unfold SsrfGuard.ipRegex. rewrite matcher_Seq.
  change (matcher false
            (Seq (Rep 3 (Some 3%nat) (Seq (Rep 1 (Some 3%nat) SsrfGuard.digit) (Chr ".")))
                 (Seq (Rep 1 (Some 3%nat) SsrfGuard.digit) Eol))
            true (String a s) (fun _ _ => true) = false).
  rewrite matcher_Seq, matcher_Rep, repeat_matcher_more, matcher_Seq, matcher_Rep.
  cbn [repeat_matcher orb]. apply matcher_not_digit. exact Ha.
Qed.

(** X15: a host that does not begin with a digit is private by its name
    only; no address in another notation is recognised, the bracketed IPv6
    loopback included. *)
Theorem host_without_leading_digit :
  forall (a : ascii) (rest : string),
    Js.is_digit a = false ->
    let hostname := String a rest in
    SsrfGuard.isPrivateTarget hostname
    = (String.eqb hostname "localhost" || Js.endsWith hostname ".local"
       || Js.endsWith hostname ".internal").
Proof.
  intros a rest Ha hostname. subst hostname.
  unfold SsrfGuard.isPrivateTarget. rewrite (ipRegex_needs_digit a rest Ha).
  cbn [andb]. destruct (_ || _ || _); reflexivity.
Qed.

Lemma host_without_leading_digit_witness :
  SsrfGuard.isPrivateTarget "[::1]"
  = (String.eqb "[::1]" "localhost" || Js.endsWith "[::1]" ".local"
     || Js.endsWith "[::1]" ".internal").
Proof.
  apply (host_without_leading_digit "[" "::1]").
  reflexivity.
Defined.

Lemma split_comma_cons (s current : string) :
  exists x l, ImageProxy.split_comma s current = x :: l.
Proof.
  revert current. induction s as [| a s IH]; intros current.
  - eexists _, _. reflexivity.
  - cbn [ImageProxy.split_comma]. destruct (Ascii.eqb a ",").
    + eexists _, _. reflexivity.
    + apply IH.
Qed.

Lemma join_split_comma (s : string) : forall current,
  Json.join "," (ImageProxy.split_comma s current) = Js.reverse current ++ s.
Proof.
  induction s as [| a s IH]; intros current.
  - cbn [ImageProxy.split_comma Json.join]. rewrite append_empty. reflexivity.
  - cbn [ImageProxy.split_comma]. destruct (Ascii.eqb_spec a ",") as [-> | Hne].
    + destruct (split_comma_cons s EmptyString) as (x & l & Hsplit).
      pose proof (IH EmptyString) as Hrest. rewrite Hsplit in *.
      change (Json.join "," (Js.reverse current :: x :: l))
        with (Js.reverse current ++ "," ++ Json.join "," (x :: l)).
      rewrite Hrest. reflexivity.
    + rewrite IH, reverse_cons, append_assoc. reflexivity.
Qed.

(** X16: the allow-list is the configured text cut at its commas, nothing
    trimmed and nothing dropped; a host passes when the text is missing or
    empty, or when the host is one of the pieces. *)
Theorem allow_list_semantics :
  forall (env_HOSTS : option string) (hostname : string),
    let csv := Js.or_else env_HOSTS EmptyString in
    (ImageProxy.not_allowed env_HOSTS hostname = false <->
     csv = EmptyString \/ hostname ∈ ImageProxy.split_comma csv EmptyString)
    /\ Json.join "," (ImageProxy.split_comma csv EmptyString) = csv.
Proof.
  intros env_HOSTS hostname csv. split; [| apply join_split_comma].
  unfold ImageProxy.not_allowed, ImageProxy.ALLOWED_HOSTS, ImageProxy.ALLOWED_HOSTS_CSV.
  fold csv. destruct csv as [| a csv'] eqn:Hcsv.
  - cbn [Js.truthy]. split; [left; reflexivity | reflexivity].
  - cbn [Js.truthy]. rewrite negb_false_iff, bool_decide_eq_true, elem_of_list_to_set.
    split; [right; assumption |]. intros [H | H]; [discriminate H | exact H].
Qed.

Lemma private_blocks_classified_private_witness :
  SsrfGuard.isPrivateTarget (dotted_quad 172 20 1 9) = true.
Proof.
  apply (private_blocks_classified_private 172 20 1 9); try lia.
  reflexivity.
Defined.

(** ** The handlers, path by path *)

Lemma pipe_body_then_end (b : option (list string)) : body_then_end (pipe b) = true.
Proof.
  destruct b as [chunks |]; [| reflexivity].
  unfold pipe. induction chunks as [| c chunks IH]; [reflexivity |].
  destruct chunks; [reflexivity | exact IH].
Qed.

Lemma pipe_response_body (b : option (list string)) :
  response_body (pipe b)
  = match b with Some chunks => String.concat EmptyString chunks | None => EmptyString end.
Proof.
  destruct b as [chunks |]; [| reflexivity].
  unfold pipe. induction chunks as [| c chunks IH]; [reflexivity |].
  cbn [map app response_body]. rewrite IH.
  destruct chunks as [| c' chunks]; [apply append_empty | reflexivity].
Qed.

Lemma sendError_well_formed req statusCode message :
  well_formed_response (ImageProxy.sendError req statusCode message) = true.
Proof. unfold ImageProxy.sendError. destruct (_ && _); reflexivity. Qed.

Lemma or_else_truthy (o : option string) :
  Js.truthy (Js.or_else o EmptyString) = true ->
  o = Some (Js.or_else o EmptyString).
Proof.
  unfold Js.or_else. destruct o as [x |]; [| discriminate].
  destruct (Js.truthy x) eqn:Hx; [reflexivity | discriminate].
Qed.

Section GatewayMore.

Import Gateway.

Variable env_MAX_JSON_SIZE_BYTES : option string.
Variable env_RATE_LIMIT_PER_MIN : option string.
Variable URL_new : string -> option URL.
Variable JSON_parse : string -> option JsonValue.
Variable fetch : FetchCall -> FetchResult.
Variable Response_error_message : string.

Local Abbreviation deliver :=
  (deliver env_MAX_JSON_SIZE_BYTES URL_new JSON_parse Response_error_message).
Local Abbreviation handler :=
  (handler env_MAX_JSON_SIZE_BYTES env_RATE_LIMIT_PER_MIN URL_new JSON_parse
           fetch Response_error_message).

Lemma streamPassthrough_well_formed r extra :
  body_then_end (tail (streamPassthrough r extra)) = true.
Proof. unfold streamPassthrough. cbn [tail]. apply pipe_body_then_end. Qed.

Lemma deliver_head_body upstreamOrigin r :
  exists code headers rest,
    deliver upstreamOrigin r = WriteHead code headers :: rest
    /\ body_then_end rest = true
    /\ headers !! "Access-Control-Allow-Origin" = Some "*".
Proof.
  assert (Hpass : forall r' (extra : gmap string string),
             extra !! "Access-Control-Allow-Origin" = None ->
             exists code headers rest,
               streamPassthrough r' extra = WriteHead code headers :: rest
               /\ body_then_end rest = true
               /\ headers !! "Access-Control-Allow-Origin" = Some "*").
  { intros r' extra Hextra. unfold streamPassthrough.
    eexists _, _, _. split; [reflexivity |]. split; [apply pipe_body_then_end |].
    destruct (header_content_length r').
    - rewrite lookup_insert_ne by discriminate.
      rewrite lookup_insert_ne by discriminate.
      rewrite lookup_union_r by exact Hextra. reflexivity.
    - rewrite lookup_insert_ne by discriminate.
      rewrite lookup_union_r by exact Hextra. reflexivity. }
  unfold Gateway.deliver.
  destruct (Js.includes _ _); [| apply Hpass; apply lookup_empty].
  destruct (exceeds _ _).
  { eexists _, _, _. split; [reflexivity |]. split; reflexivity. }
  destruct (JSON_parse _).
  { eexists _, _, _. split; [reflexivity |]. split; reflexivity. }
  destruct (Response_new _ _).
  - apply Hpass. apply lookup_singleton_ne. discriminate.
  - eexists _, _, _. split; [reflexivity |]. split; reflexivity.
Qed.

(** The paths of the gateway handler. *)
Lemma handler_paths m now req :
  let answer :=
    RateLimiter.isRateLimited env_RATE_LIMIT_PER_MIN m now (getIp req) in
  let restPath := Js.or_else (searchParams req !! "rest") EmptyString in
  let targetUrl := UPSTREAM_BASE ++ "/" ++ restPath in
  (String.eqb (method req) "OPTIONS" = true
   /\ handler m now req = (m, [WriteHead 204 CORS_HEADERS; End None]))
  \/ (String.eqb (method req) "OPTIONS" = false /\ fst (handler m now req) = snd answer
      /\ ((fst answer = true
           /\ snd (handler m now req)
              = [WriteHead 429 json_headers;
                 End (Some (error_body "Rate limit exceeded" 429 []))])
          \/ (fst answer = false
              /\ (Js.truthy restPath = false
                  \/ Js.startsWith restPath "komikstation/" = false)
              /\ snd (handler m now req)
                 = [WriteHead 400 json_headers;
                    End (Some (error_body
                                 "Invalid endpoint. Must start with komikstation/"
                                 400 []))])
          \/ (fst answer = false
              /\ searchParams req !! "rest" = Some restPath
              /\ Js.startsWith restPath "komikstation/" = true
              /\ ((URL_new targetUrl = None /\ snd (handler m now req) = [Uncaught])
                  \/ exists u,
                       URL_new targetUrl = Some u
                       /\ snd (handler m now req)
                          = Fetch (upstream_call req targetUrl) ::
                            match fetch (upstream_call req targetUrl) with
                            | Rejected message => fetch_failed message
                            | Resolved upstreamResponse =>
                                deliver (origin u) upstreamResponse
                            end)))).
Proof.
  intros answer restPath targetUrl. unfold Gateway.handler.
  destruct (String.eqb (method req) "OPTIONS"); [left; split; reflexivity |].
  right. split; [reflexivity |].
  fold answer. destruct answer as [limited counts]. cbn [fst snd].
  split; [reflexivity |].
  destruct limited; [left; split; reflexivity |].
  right. fold restPath.
  destruct (Js.truthy restPath) eqn:Htruthy; cbn [negb orb].
  2:{ left. split; [reflexivity |]. split; [left; reflexivity | reflexivity]. }
  destruct (Js.startsWith restPath "komikstation/") eqn:Hprefix; cbn [negb].
  2:{ left. split; [reflexivity |]. split; [right; reflexivity | reflexivity]. }
  right. split; [reflexivity |].
  split; [apply or_else_truthy; exact Htruthy |].
  split; [reflexivity |].
  fold targetUrl. destruct (URL_new targetUrl) as [u |].
  - right. exists u. split; reflexivity.
  - left. split; reflexivity.
Qed.

End GatewayMore.

(** X17: the gateway fetches at most once, and only the address made of the
    upstream base and a path under komikstation/, with the method of the
    request, for a request that is not a preflight and that the limiter let
    through. *)
Theorem gateway_fetches_only_upstream :
  forall (env_MAX env_RATE : option string) (URL_new : string -> option URL)
         (JSON_parse : string -> option JsonValue)
         (fetch : FetchCall -> FetchResult) (Response_error_message : string)
         (m : gmap string (list Z)) (now : Z) (req : Request) (call : FetchCall),
    In (Fetch call)
       (snd (Gateway.handler env_MAX env_RATE URL_new JSON_parse fetch
               Response_error_message m now req)) ->
    String.eqb (method req) "OPTIONS" = false
    /\ fst (RateLimiter.isRateLimited env_RATE m now (getIp req)) = false
    /\ exists restPath,
         searchParams req !! "rest" = Some restPath
         /\ Js.startsWith restPath "komikstation/" = true
         /\ fetch_url call = "https://www.sankavollerei.com/comic/" ++ restPath
         /\ fetch_method call = method req
         /\ is_Some (URL_new (fetch_url call)).
Proof.
  intros env_MAX env_RATE URL_new JSON_parse fetch msg m now req call Hin.
  pose proof (in_fetch_existsb call _ Hin) as Hex.
  destruct (handler_paths env_MAX env_RATE URL_new JSON_parse fetch msg m now req)
    as [[_ Hrun] | (Hmethod & _ & [[_ Hrun] | [(_ & _ & Hrun) | (Hfree & Hrest & Hprefix & Hrun)]])].
  - rewrite Hrun in Hex. discriminate Hex.
  - rewrite Hrun in Hex. discriminate Hex.
  - rewrite Hrun in Hex. discriminate Hex.
  - destruct Hrun as [[_ Hrun] | (u & Hurl & Hrun)].
    { rewrite Hrun in Hex. discriminate Hex. }
    split; [exact Hmethod |]. split; [exact Hfree |].
    exists (Js.or_else (searchParams req !! "rest") EmptyString).
    split; [exact Hrest |]. split; [exact Hprefix |].
    rewrite Hrun in Hin. destruct Hin as [Heq | Hin].
    + injection Heq as <-. split; [reflexivity |]. split; [reflexivity |].
      cbn [fetch_url Gateway.upstream_call]. rewrite Hurl. eexists. reflexivity.
    + apply in_fetch_existsb in Hin.
      destruct (fetch _) as [r | message].
      * rewrite deliver_no_fetch in Hin. discriminate Hin.
      * discriminate Hin.
Qed.

Section ImageProxyMore.

Import ImageProxy.

Variable env_IMAGE_MAX_BYTES : option string.
Variable env_ALLOWED_HOSTS : option string.
Variable env_RATE_LIMIT_PER_MIN : option string.
Variable URL_new : string -> option URL.
Variable fetch : FetchCall -> FetchResult.

Local Abbreviation handler :=
  (handler env_IMAGE_MAX_BYTES env_ALLOWED_HOSTS env_RATE_LIMIT_PER_MIN URL_new fetch).

(** The paths of the image handler. *)
Lemma image_handler_paths m now req :
  let answer :=
    RateLimiter.isRateLimited env_RATE_LIMIT_PER_MIN m now (getIp req) in
  let targetUrl := Js.or_else (searchParams req !! "url") EmptyString in
  (String.eqb (method req) "OPTIONS" = true
   /\ handler m now req = (m, [WriteHead 204 CORS_HEADERS; End None]))
  \/ (String.eqb (method req) "OPTIONS" = false
      /\ String.eqb (method req) "GET" = false
      /\ handler m now req
         = (m, [WriteHead 405 CORS_HEADERS; End (Some "Method Not Allowed")]))
  \/ (String.eqb (method req) "GET" = true /\ fst (handler m now req) = snd answer
      /\ ((fst answer = true
           /\ snd (handler m now req) = sendError req 429 "Rate limit exceeded")
          \/ (fst answer = false /\ Js.truthy targetUrl = false
              /\ snd (handler m now req)
                 = sendError req 400 "Missing url query parameter")
          \/ (fst answer = false /\ searchParams req !! "url" = Some targetUrl
              /\ Js.truthy targetUrl = true
              /\ ((URL_new targetUrl = None
                   /\ snd (handler m now req) = sendError req 400 "Invalid URL format")
                  \/ exists urlObj,
                       URL_new targetUrl = Some urlObj
                       /\ ((String.eqb (protocol urlObj) "http:" = false
                            /\ String.eqb (protocol urlObj) "https:" = false
                            /\ snd (handler m now req)
                               = sendError req 400
                                   "Invalid protocol. Only http and https are allowed.")
                           \/ ((String.eqb (protocol urlObj) "http:" = true
                                \/ String.eqb (protocol urlObj) "https:" = true)
                               /\ ((SsrfGuard.isPrivateTarget (hostname urlObj) = true
                                    /\ snd (handler m now req)
                                       = sendError req 400
                                           "Target URL is internal or private. Request blocked.")
                                   \/ (SsrfGuard.isPrivateTarget (hostname urlObj) = false
                                       /\ not_allowed env_ALLOWED_HOSTS (hostname urlObj) = true
                                       /\ snd (handler m now req)
                                          = sendError req 403 "Hostname not allowed.")
                                   \/ (SsrfGuard.isPrivateTarget (hostname urlObj) = false
                                       /\ not_allowed env_ALLOWED_HOSTS (hostname urlObj) = false
                                       /\ snd (handler m now req)
                                          = Fetch (upstream_call targetUrl) ::
                                            match fetch (upstream_call targetUrl) with
                                            | Rejected message =>
                                                sendError req 502
                                                  ("Failed to fetch upstream image: "
                                                   ++ message)
                                            | Resolved upstreamResponse =>
                                                deliver env_IMAGE_MAX_BYTES req
                                                        upstreamResponse
                                            end)))))))).
Proof.
  intros answer targetUrl. unfold ImageProxy.handler.
  destruct (String.eqb (method req) "OPTIONS") eqn:Hoptions;
    [left; split; reflexivity |].
  right.
  destruct (String.eqb (method req) "GET") eqn:Hget; cbn [negb];
    [| left; split; [reflexivity | split; reflexivity]].
  right. split; [reflexivity |].
  fold answer. destruct answer as [limited counts]. cbn [fst snd].
  split; [reflexivity |].
  destruct limited; [left; split; reflexivity |].
  right. fold targetUrl.
  destruct (Js.truthy targetUrl) eqn:Htruthy; cbn [negb];
    [| left; split; [reflexivity | split; reflexivity]].
  right. split; [reflexivity |].
  split; [apply or_else_truthy; exact Htruthy |].
  split; [reflexivity |].
  destruct (URL_new targetUrl) as [urlObj |]; [| left; split; reflexivity].
  right. exists urlObj. split; [reflexivity |].
  destruct (String.eqb (protocol urlObj) "http:") eqn:Hhttp; cbn [negb andb].
  - right. split; [left; reflexivity |].
    destruct (SsrfGuard.isPrivateTarget (hostname urlObj));
      [left; split; reflexivity |].
    right. destruct (not_allowed env_ALLOWED_HOSTS (hostname urlObj));
      [left | right]; (split; [reflexivity | split; reflexivity]).
  - destruct (String.eqb (protocol urlObj) "https:") eqn:Hhttps; cbn [negb].
    + right. split; [right; reflexivity |].
      destruct (SsrfGuard.isPrivateTarget (hostname urlObj));
        [left; split; reflexivity |].
      right. destruct (not_allowed env_ALLOWED_HOSTS (hostname urlObj));
        [left | right]; (split; [reflexivity | split; reflexivity]).
    + left. split; [reflexivity | split; reflexivity].
Qed.

End ImageProxyMore.


Lemma head_shape_cors es :
  head_shape es -> response_header "Access-Control-Allow-Origin" es = Some "*".
Proof.
  intros (code & headers & rest & [-> | (c & ->)] & _ & Hcors); exact Hcors.
Qed.

Lemma head_shape_after_fetch c es : head_shape es ->
  ~ (exists c' rest, es = Fetch c' :: rest) -> head_shape (Fetch c :: es).
Proof.
  intros (code & headers & rest & [-> | (c' & ->)] & Hbody & Hcors) Hno.
  - exists code, headers, rest. split; [right; exists c; reflexivity |].
    split; assumption.
  - exfalso. apply Hno. eexists _, _. reflexivity.
Qed.

Lemma sendError_head_shape req statusCode message :
  head_shape (ImageProxy.sendError req statusCode message)
  /\ exists code headers data,
       ImageProxy.sendError req statusCode message
       = [WriteHead code headers; End data].
Proof.
  unfold ImageProxy.sendError. destruct (_ && _).
  - split; [| eexists _, _, _; reflexivity].
    eexists _, _, _. split; [left; reflexivity |]. split; reflexivity.
  - split; [| eexists _, _, _; reflexivity].
    eexists _, _, _. split; [left; reflexivity |]. split; reflexivity.
Qed.

Lemma sendError_after_fetch c req statusCode message :
  head_shape (Fetch c :: ImageProxy.sendError req statusCode message).
Proof.
  destruct (sendError_head_shape req statusCode message)
    as [_ (code & headers & data & Heq)].
  destruct (sendError_head_shape req statusCode message) as [Hshape _].
  apply head_shape_after_fetch; [exact Hshape |].
  rewrite Heq. intros (c' & rest & H). discriminate H.
Qed.

Lemma image_deliver_after_fetch env c req r :
  head_shape (Fetch c :: ImageProxy.deliver env req r).
Proof.
  unfold ImageProxy.deliver.
  destruct (negb (ok r)); [apply sendError_after_fetch |].
  destruct (ImageProxy.too_large _ _); [apply sendError_after_fetch |].
  eexists _, _, _. split; [right; eexists; reflexivity |].
  split; [apply pipe_body_then_end |].
  destruct (header_content_length r) as [l |].
  - destruct (Js.truthy l).
    + rewrite !lookup_insert_ne by discriminate. reflexivity.
    + rewrite !lookup_insert_ne by discriminate. reflexivity.
  - rewrite !lookup_insert_ne by discriminate. reflexivity.
Qed.

Lemma gateway_run_shape env_MAX env_RATE URL_new JSON_parse fetch msg m now req :
  let events := snd (Gateway.handler env_MAX env_RATE URL_new JSON_parse fetch msg
                       m now req) in
  events = [Uncaught] \/ head_shape events.
Proof.
  intros events. subst events.
  destruct (handler_paths env_MAX env_RATE URL_new JSON_parse fetch msg m now req)
    as [[_ Hrun] | (_ & _ & [[_ Hrun] | [(_ & _ & Hrun) | (_ & _ & _ & Hrun)]])].
  - rewrite Hrun. right. eexists _, _, _.
    split; [left; reflexivity |]. split; reflexivity.
  - rewrite Hrun. right. eexists _, _, _.
    split; [left; reflexivity |]. split; reflexivity.
  - rewrite Hrun. right. eexists _, _, _.
    split; [left; reflexivity |]. split; reflexivity.
  - destruct Hrun as [[_ Hrun] | (u & _ & Hrun)]; [left; exact Hrun |].
    right. rewrite Hrun. destruct (fetch _) as [r | message].
    + destruct (deliver_head_body env_MAX URL_new JSON_parse msg (origin u) r)
        as (code & headers & rest & -> & Hbody & Hcors).
      exists code, headers, rest. split; [right; eexists; reflexivity |].
      split; assumption.
    + eexists _, _, _. split; [right; eexists; reflexivity |]. split; reflexivity.
Qed.

Lemma image_run_shape env_IMAGE env_HOSTS env_RATE URL_new fetch m now req :
  head_shape (snd (ImageProxy.handler env_IMAGE env_HOSTS env_RATE URL_new fetch
                     m now req)).
Proof.
  destruct (image_handler_paths env_IMAGE env_HOSTS env_RATE URL_new fetch m now req)
    as [ [_ Hrun] | [ (_ & _ & Hrun) | (_ & _ & [ [_ Hrun] | [ (_ & _ & Hrun)
       | (_ & _ & _ & [ [_ Hrun] | (urlObj & _ & [ (_ & _ & Hrun)
       | (_ & [ [_ Hrun] | [ (_ & _ & Hrun) | (_ & _ & Hrun) ] ]) ]) ]) ] ]) ] ];
    rewrite Hrun; try apply sendError_head_shape.
  - eexists _, _, _. split; [left; reflexivity |]. split; reflexivity.
  - eexists _, _, _. split; [left; reflexivity |]. split; reflexivity.
  - destruct (fetch _) as [r | message].
    + apply image_deliver_after_fetch.
    + apply sendError_after_fetch.
Qed.


(** X20: every head that either handler sends allows every origin. *)
Theorem every_response_allows_all_origins :
  (forall env_MAX env_RATE URL_new JSON_parse fetch msg m now req,
      let events := snd (Gateway.handler env_MAX env_RATE URL_new JSON_parse fetch
                           msg m now req) in
      events = [Uncaught]
      \/ response_header "Access-Control-Allow-Origin" events = Some "*")
  /\ (forall env_IMAGE env_HOSTS env_RATE URL_new fetch m now req,
        response_header "Access-Control-Allow-Origin"
          (snd (ImageProxy.handler env_IMAGE env_HOSTS env_RATE URL_new fetch
                  m now req)) = Some "*").
Proof.
  split.
  - intros env_MAX env_RATE URL_new JSON_parse fetch msg m now req events.
    destruct (gateway_run_shape env_MAX env_RATE URL_new JSON_parse fetch msg
                m now req) as [H | H]; [left; exact H |].
    right. apply head_shape_cors. exact H.
  - intros. apply head_shape_cors. apply image_run_shape.
Qed.

(** X18: the image proxy fetches at most the address that the client gave,
    with GET, and only when the request is a GET that the limiter let
    through and the address parsed, has the scheme http or https, a host
    that is not classified private and that the allow-list admits. *)
Theorem image_proxy_fetches_only_checked_targets :
  forall (env_IMAGE env_HOSTS env_RATE : option string)
         (URL_new : string -> option URL) (fetch : FetchCall -> FetchResult)
         (m : gmap string (list Z)) (now : Z) (req : Request) (call : FetchCall),
    In (Fetch call)
       (snd (ImageProxy.handler env_IMAGE env_HOSTS env_RATE URL_new fetch m now req)) ->
    method req = "GET"
    /\ fst (RateLimiter.isRateLimited env_RATE m now (getIp req)) = false
    /\ exists targetUrl urlObj,
         searchParams req !! "url" = Some targetUrl
         /\ fetch_url call = targetUrl
         /\ fetch_method call = "GET"
         /\ URL_new targetUrl = Some urlObj
         /\ (protocol urlObj = "http:" \/ protocol urlObj = "https:")
         /\ SsrfGuard.isPrivateTarget (hostname urlObj) = false
         /\ ImageProxy.not_allowed env_HOSTS (hostname urlObj) = false.
Proof.
  intros env_IMAGE env_HOSTS env_RATE URL_new fetch m now req call Hin.
  pose proof (in_fetch_existsb call _ Hin) as Hex.
  destruct (image_handler_paths env_IMAGE env_HOSTS env_RATE URL_new fetch m now req)
    as [ [_ Hrun] | [ (_ & _ & Hrun) | (Hget & _ & [ [_ Hrun] | [ (_ & _ & Hrun)
       | (Hfree & Hurl & _ & [ [_ Hrun] | (urlObj & Hparse & [ (_ & _ & Hrun)
       | (Hproto & [ [_ Hrun] | [ (_ & _ & Hrun) | (Hpublic & Hallow & Hrun) ] ]) ]) ]) ] ]) ] ];
    try (rewrite Hrun in Hex; try rewrite sendError_no_fetch in Hex; discriminate Hex).
  split; [apply String.eqb_eq; exact Hget |]. split; [exact Hfree |].
  exists (Js.or_else (searchParams req !! "url") EmptyString), urlObj.
  split; [exact Hurl |].
  rewrite Hrun in Hin. destruct Hin as [Heq | Hin].
  - injection Heq as <-. split; [reflexivity |]. split; [reflexivity |].
    split; [exact Hparse |].
    split; [destruct Hproto as [H | H]; apply String.eqb_eq in H; auto |].
    split; assumption.
  - apply in_fetch_existsb in Hin. destruct (fetch _) as [r | message].
    + rewrite image_deliver_no_fetch in Hin. discriminate Hin.
    + rewrite sendError_no_fetch in Hin. discriminate Hin.
Qed.

(** X21: the limiter is charged once for every request that is not a
    preflight (gateway) or that is a GET (image proxy), also when the
    request is then refused; no other request touches the map. *)
Theorem limiter_charged_once_per_request :
  (forall env_MAX env_RATE URL_new JSON_parse fetch msg m now req,
      fst (Gateway.handler env_MAX env_RATE URL_new JSON_parse fetch msg m now req)
      = if String.eqb (method req) "OPTIONS" then m
        else snd (RateLimiter.isRateLimited env_RATE m now (getIp req)))
  /\ (forall env_IMAGE env_HOSTS env_RATE URL_new fetch m now req,
        fst (ImageProxy.handler env_IMAGE env_HOSTS env_RATE URL_new fetch m now req)
        = if String.eqb (method req) "GET"
          then snd (RateLimiter.isRateLimited env_RATE m now (getIp req))
          else m).
Proof.
  split.
  - intros env_MAX env_RATE URL_new JSON_parse fetch msg m now req.
    destruct (handler_paths env_MAX env_RATE URL_new JSON_parse fetch msg m now req)
      as [[Hmethod Hrun] | (Hmethod & Hmap & _)]; rewrite Hmethod.
    + rewrite Hrun. reflexivity.
    + exact Hmap.
  - intros env_IMAGE env_HOSTS env_RATE URL_new fetch m now req.
    destruct (image_handler_paths env_IMAGE env_HOSTS env_RATE URL_new fetch m now req)
      as [ [Hopt Hrun] | [ (_ & Hget & Hrun) | (Hget & Hmap & _) ] ].
    + apply String.eqb_eq in Hopt. rewrite Hrun, Hopt. reflexivity.
    + rewrite Hget, Hrun. reflexivity.
    + rewrite Hget. exact Hmap.
Qed.

(** X22: the bound on the stored windows survives every request to either
    handler. *)
Theorem handlers_keep_windows_bounded :
  forall (env_RATE : option string) (L : Z) (m : gmap string (list Z)),
    RateLimiter.RATE_LIMIT_PER_MIN env_RATE = Some L ->
    bounded L m ->
    (forall env_MAX URL_new JSON_parse fetch msg now req,
        bounded L (fst (Gateway.handler env_MAX env_RATE URL_new JSON_parse fetch
                          msg m now req)))
    /\ (forall env_IMAGE env_HOSTS URL_new fetch now req,
          bounded L (fst (ImageProxy.handler env_IMAGE env_HOSTS env_RATE URL_new
                            fetch m now req))).
Proof.
  intros env_RATE L m HL Hm. split.
  - intros env_MAX URL_new JSON_parse fetch msg now req.
    destruct (handler_paths env_MAX env_RATE URL_new JSON_parse fetch msg m now req)
      as [[_ Hrun] | (_ & Hmap & _)].
    + rewrite Hrun. exact Hm.
    + rewrite Hmap. apply isRateLimited_bounded; assumption.
  - intros env_IMAGE env_HOSTS URL_new fetch now req.
    destruct (image_handler_paths env_IMAGE env_HOSTS env_RATE URL_new fetch m now req)
      as [ [_ Hrun] | [ (_ & _ & Hrun) | (_ & Hmap & _) ] ].
    + rewrite Hrun. exact Hm.
    + rewrite Hrun. exact Hm.
    + rewrite Hmap. apply isRateLimited_bounded; assumption.
Qed.

Lemma handlers_keep_windows_bounded_witness :
  (forall env_MAX URL_new JSON_parse fetch msg now req,
      bounded 60 (fst (Gateway.handler env_MAX None URL_new JSON_parse fetch
                         msg ∅ now req)))
  /\ (forall env_IMAGE env_HOSTS URL_new fetch now req,
        bounded 60 (fst (ImageProxy.handler env_IMAGE env_HOSTS None URL_new
                           fetch ∅ now req))).
Proof.
  apply (handlers_keep_windows_bounded None 60 ∅).
  - reflexivity.
  - intros ip l H. rewrite lookup_empty in H. discriminate H.
Defined.

Lemma gateway_fetch_run env_MAX env_RATE URL_new JSON_parse fetch msg m now req call :
  In (Fetch call)
     (snd (Gateway.handler env_MAX env_RATE URL_new JSON_parse fetch msg m now req)) ->
  exists u,
    URL_new (fetch_url call) = Some u
    /\ snd (Gateway.handler env_MAX env_RATE URL_new JSON_parse fetch msg m now req)
       = Fetch call ::
         match fetch call with
         | Rejected message => Gateway.fetch_failed message
         | Resolved upstreamResponse =>
             Gateway.deliver env_MAX URL_new JSON_parse msg (origin u) upstreamResponse
         end.
Proof.
  intros Hin. pose proof (in_fetch_existsb call _ Hin) as Hex.
  destruct (handler_paths env_MAX env_RATE URL_new JSON_parse fetch msg m now req)
    as [[_ Hrun] | (_ & _ & [[_ Hrun] | [(_ & _ & Hrun) | (_ & _ & _ & Hrun)]])];
    try (rewrite Hrun in Hex; discriminate Hex).
  destruct Hrun as [[_ Hrun] | (u & Hurl & Hrun)].
  { rewrite Hrun in Hex. discriminate Hex. }
  exists u. rewrite Hrun in Hin. destruct Hin as [Heq | Hin].
  - injection Heq as <-. split; [exact Hurl | exact Hrun].
  - apply in_fetch_existsb in Hin. destruct (fetch _) as [r | message].
    + rewrite deliver_no_fetch in Hin. discriminate Hin.
    + discriminate Hin.
Qed.

(** X23: an upstream answer that does not announce JSON is passed through:
    its status, its content type (application/octet-stream when it has
    none), its content length when it has one, and its body, chunk by
    chunk. *)
Theorem non_json_answer_is_passed_through :
  forall (env_MAX env_RATE : option string) (URL_new : string -> option URL)
         (JSON_parse : string -> option JsonValue)
         (fetch : FetchCall -> FetchResult) (Response_error_message : string)
         (m : gmap string (list Z)) (now : Z) (req : Request)
         (call : FetchCall) (upstreamResponse : Response),
    In (Fetch call)
       (snd (Gateway.handler env_MAX env_RATE URL_new JSON_parse fetch
               Response_error_message m now req)) ->
    fetch call = Resolved upstreamResponse ->
    Js.includes (Js.or_else (header_content_type upstreamResponse) EmptyString)
                "application/json" = false ->
    let events := snd (Gateway.handler env_MAX env_RATE URL_new JSON_parse fetch
                         Response_error_message m now req) in
    (exists headers,
        events = Fetch call :: WriteHead (status upstreamResponse) headers
                 :: pipe (body upstreamResponse))
    /\ response_header "Content-Type" events
       = Some (Js.or_else (header_content_type upstreamResponse)
                          "application/octet-stream")
    /\ response_header "Content-Length" events
       = header_content_length upstreamResponse
    /\ response_body events = Gateway.text_of upstreamResponse.
Proof.
  intros env_MAX env_RATE URL_new JSON_parse fetch msg m now req call up
         Hin Hup Hplain events. subst events.
  destruct (gateway_fetch_run env_MAX env_RATE URL_new JSON_parse fetch msg
              m now req call Hin) as (u & _ & Hrun).
  rewrite Hrun, Hup. unfold Gateway.deliver. rewrite Hplain.
  unfold Gateway.streamPassthrough.
  split; [eexists; reflexivity |].
  unfold response_header. cbn [response_head mbind option_bind snd].
  split; [| split].
  - destruct (header_content_length up).
    + rewrite lookup_insert_ne by discriminate. apply lookup_insert_eq.
    + apply lookup_insert_eq.
  - destruct (header_content_length up).
    + apply lookup_insert_eq.
    + rewrite lookup_insert_ne by discriminate. reflexivity.
  - cbn [response_body]. rewrite pipe_response_body. reflexivity.
Qed.

(** X24: an upstream JSON answer that parses is answered with the status of
    the upstream, the content type application/json; charset=utf-8 and the
    serialisation of the rewritten tree, the origin being the one of the
    fetched address. *)
Theorem parsed_json_is_rewritten_and_sent :
  forall (env_MAX env_RATE : option string) (URL_new : string -> option URL)
         (JSON_parse : string -> option JsonValue)
         (fetch : FetchCall -> FetchResult) (Response_error_message : string)
         (m : gmap string (list Z)) (now : Z) (req : Request)
         (call : FetchCall) (upstreamResponse : Response) (data : JsonValue),
    In (Fetch call)
       (snd (Gateway.handler env_MAX env_RATE URL_new JSON_parse fetch
               Response_error_message m now req)) ->
    fetch call = Resolved upstreamResponse ->
    Js.includes (Js.or_else (header_content_type upstreamResponse) EmptyString)
                "application/json" = true ->
    Gateway.exceeds (Gateway.byteLength (Gateway.text_of upstreamResponse))
                    (Gateway.MAX_JSON_SIZE_BYTES env_MAX) = false ->
    JSON_parse (Gateway.text_of upstreamResponse) = Some data ->
    exists u,
      URL_new (fetch_url call) = Some u
      /\ snd (Gateway.handler env_MAX env_RATE URL_new JSON_parse fetch
                Response_error_message m now req)
         = [Fetch call;
            WriteHead (status upstreamResponse)
              (<["Content-Type" := "application/json; charset=utf-8"]>
                 Gateway.CORS_HEADERS);
            End (Some (stringify (Gateway.recursiveRewrite URL_new data (origin u))))].
Proof.
  intros env_MAX env_RATE URL_new JSON_parse fetch msg m now req call up data
         Hin Hup Hjson Hsize Hparse.
  destruct (gateway_fetch_run env_MAX env_RATE URL_new JSON_parse fetch msg
              m now req call Hin) as (u & Hurl & Hrun).
  exists u. split; [exact Hurl |].
  rewrite Hrun, Hup. unfold Gateway.deliver. rewrite Hjson, Hsize, Hparse.
  reflexivity.
Qed.

(** X25: the errors of the gateway.  A request that the limiter refuses is
    answered 429, a path that is missing or not under komikstation/ is
    answered 400, and a fetch that fails is answered 502 with the message
    of the failure; each with a JSON body that repeats the status. *)
Theorem gateway_error_answers :
  forall (env_MAX env_RATE : option string) (URL_new : string -> option URL)
         (JSON_parse : string -> option JsonValue)
         (fetch : FetchCall -> FetchResult) (Response_error_message : string)
         (m : gmap string (list Z)) (now : Z) (req : Request),
    String.eqb (method req) "OPTIONS" = false ->
    let run := Gateway.handler env_MAX env_RATE URL_new JSON_parse fetch
                 Response_error_message m now req in
    let limited := fst (RateLimiter.isRateLimited env_RATE m now (getIp req)) in
    let restPath := Js.or_else (searchParams req !! "rest") EmptyString in
    (limited = true ->
     run = (m, [WriteHead 429 (<["Content-Type" := "application/json"]>
                                 Gateway.CORS_HEADERS);
                End (Some (Js.with_dquotes
                  "{'success':false,'error':'Rate limit exceeded','code':429}"))]))
    /\ (limited = false ->
        Js.startsWith restPath "komikstation/" = false ->
        snd run = [WriteHead 400 (<["Content-Type" := "application/json"]>
                                    Gateway.CORS_HEADERS);
                   End (Some (Js.with_dquotes
                     "{'success':false,'error':'Invalid endpoint. Must start with komikstation/','code':400}"))])
    /\ (forall call message,
          In (Fetch call) (snd run) ->
          fetch call = Rejected message ->
          snd run = [Fetch call;
                     WriteHead 502 (<["Content-Type" := "application/json"]>
                                      Gateway.CORS_HEADERS);
                     End (Some (Js.with_dquotes
                       "{'success':false,'error':'Failed to fetch from upstream','code':502,'details':"
                       ++ Json.quote message ++ "}"))]).
Proof.
  intros env_MAX env_RATE URL_new JSON_parse fetch msg m now req Hmethod
         run limited restPath.
  subst run limited restPath.
  split; [| split].
  - intros Hlimited.
    destruct (handler_paths env_MAX env_RATE URL_new JSON_parse fetch msg m now req)
      as [[Hopt _] | (_ & Hmap & [[_ Hrun] | [(Hfree & _) | (Hfree & _)]])];
      try congruence.
    rewrite (surjective_pairing (Gateway.handler _ _ _ _ _ _ _ _ _)), Hmap, Hrun.
    rewrite (isRateLimited_limited env_RATE m now (getIp req) Hlimited).
    reflexivity.
  - intros Hfree Hprefix.
    destruct (handler_paths env_MAX env_RATE URL_new JSON_parse fetch msg m now req)
      as [[Hopt _] | (_ & _ & [[Hlimited _] | [(_ & _ & Hrun) | (_ & _ & Hok & _)]])];
      try congruence.
    rewrite Hrun. reflexivity.
  - intros call message Hin Hfail.
    destruct (gateway_fetch_run env_MAX env_RATE URL_new JSON_parse fetch msg
                m now req call Hin) as (u & _ & Hrun).
    rewrite Hrun, Hfail. reflexivity.
Qed.

(** X26: the errors of the image proxy before the fetch, for a GET that the
    limiter let through: no address, an address that does not parse and a
    scheme other than http and https are answered as the error 400, and a
    host outside the allow-list as the error 403. *)
Theorem image_proxy_validation_answers :
  forall (env_IMAGE env_HOSTS env_RATE : option string)
         (URL_new : string -> option URL) (fetch : FetchCall -> FetchResult)
         (m : gmap string (list Z)) (now : Z) (req : Request),
    method req = "GET" ->
    fst (RateLimiter.isRateLimited env_RATE m now (getIp req)) = false ->
    let events :=
      snd (ImageProxy.handler env_IMAGE env_HOSTS env_RATE URL_new fetch m now req) in
    let targetUrl := Js.or_else (searchParams req !! "url") EmptyString in
    (targetUrl = EmptyString ->
     events = ImageProxy.sendError req 400 "Missing url query parameter")
    /\ (targetUrl <> EmptyString -> URL_new targetUrl = None ->
        events = ImageProxy.sendError req 400 "Invalid URL format")
    /\ (forall urlObj,
          targetUrl <> EmptyString -> URL_new targetUrl = Some urlObj ->
          protocol urlObj <> "http:" -> protocol urlObj <> "https:" ->
          events = ImageProxy.sendError req 400
                     "Invalid protocol. Only http and https are allowed.")
    /\ (forall urlObj,
          targetUrl <> EmptyString -> URL_new targetUrl = Some urlObj ->
          protocol urlObj = "http:" \/ protocol urlObj = "https:" ->
          SsrfGuard.isPrivateTarget (hostname urlObj) = false ->
          ImageProxy.not_allowed env_HOSTS (hostname urlObj) = true ->
          events = ImageProxy.sendError req 403 "Hostname not allowed.").
Proof.
  intros env_IMAGE env_HOSTS env_RATE URL_new fetch m now req Hget Hfree
         events targetUrl.
  assert (Hget' : String.eqb (method req) "GET" = true)
    by (apply String.eqb_eq; exact Hget).
  assert (Hopt' : String.eqb (method req) "OPTIONS" = false)
    by (rewrite Hget; reflexivity).
  assert (Htruthy : forall s, s <> EmptyString -> Js.truthy s = true)
    by (intros [| a s] H; [congruence | reflexivity]).
  subst events targetUrl.
  destruct (image_handler_paths env_IMAGE env_HOSTS env_RATE URL_new fetch m now req)
    as [ [Hopt _] | [ (_ & Hnot & _) | (_ & _ & [ [Hlim _] | [ (_ & Hempty & Hrun)
       | (_ & _ & Hfull & [ [Hparse Hrun] | (urlObj & Hparse & [ (Hhttp & Hhttps & Hrun)
       | (Hproto & [ [Hpriv Hrun] | [ (Hpub & Hdeny & Hrun) | (Hpub & Hallow & Hrun) ] ]) ]) ]) ] ]) ] ];
    try congruence.
  - (* no address *)
    split; [intros _; exact Hrun |].
    split; [intros Hne; apply Htruthy in Hne; congruence |].
    split; intros; match goal with H : _ <> EmptyString |- _ =>
                     apply Htruthy in H; congruence end.
  - (* does not parse *)
    split; [intros Hnone; rewrite Hnone in Hfull; discriminate Hfull |].
    split; [intros _ _; exact Hrun |].
    split; intros; congruence.
  - (* other scheme *)
    split; [intros Hnone; rewrite Hnone in Hfull; discriminate Hfull |].
    split; [intros; congruence |].
    split; [intros u _ Hu _ _; exact Hrun |].
    intros u _ Hu [Hp | Hp] _ _; assert (u = urlObj) by congruence; subst u;
      rewrite Hp in *; discriminate.
  - (* private *)
    split; [intros Hnone; rewrite Hnone in Hfull; discriminate Hfull |].
    split; [intros; congruence |].
    split.
    + intros u _ Hu Hn1 Hn2. assert (u = urlObj) by congruence. subst u.
      destruct Hproto as [Hp | Hp]; apply String.eqb_eq in Hp; congruence.
    + intros u _ Hu _ Hpub _. assert (u = urlObj) by congruence. subst u. congruence.
  - (* outside the allow-list *)
    split; [intros Hnone; rewrite Hnone in Hfull; discriminate Hfull |].
    split; [intros; congruence |].
    split.
    + intros u _ Hu Hn1 Hn2. assert (u = urlObj) by congruence. subst u.
      destruct Hproto as [Hp | Hp]; apply String.eqb_eq in Hp; congruence.
    + intros u _ Hu _ _ _. assert (u = urlObj) by congruence. subst u. exact Hrun.
  - (* fetched *)
    split; [intros Hnone; rewrite Hnone in Hfull; discriminate Hfull |].
    split; [intros; congruence |].
    split.
    + intros u _ Hu Hn1 Hn2. assert (u = urlObj) by congruence. subst u.
      destruct Hproto as [Hp | Hp]; apply String.eqb_eq in Hp; congruence.
    + intros u _ Hu _ _ Hdeny. assert (u = urlObj) by congruence. subst u. congruence.
Qed.


(** X28: an image that passes is sent with the content type of the upstream
    (application/octet-stream when it has none), the declared length when
    there is one, a cache lifetime of one day, and the body of the upstream,
    chunk by chunk. *)
Theorem image_success_headers_and_body :
  forall (env_IMAGE env_HOSTS env_RATE : option string)
         (URL_new : string -> option URL) (fetch : FetchCall -> FetchResult)
         (m : gmap string (list Z)) (now : Z) (req : Request)
         (call : FetchCall) (upstreamResponse : Response),
    In (Fetch call)
       (snd (ImageProxy.handler env_IMAGE env_HOSTS env_RATE URL_new fetch m now req)) ->
    fetch call = Resolved upstreamResponse ->
    ok upstreamResponse = true ->
    ImageProxy.too_large env_IMAGE (header_content_length upstreamResponse) = false ->
    let events :=
      snd (ImageProxy.handler env_IMAGE env_HOSTS env_RATE URL_new fetch m now req) in
    response_header "Content-Type" events
    = Some (Js.or_else (header_content_type upstreamResponse)
                       "application/octet-stream")
    /\ response_header "Cache-Control" events = Some "public, max-age=86400"
    /\ response_header "Content-Length" events
       = match header_content_length upstreamResponse with
         | Some l => if Js.truthy l then Some l else None
         | None => None
         end
    /\ response_body events
       = match body upstreamResponse with
         | Some chunks => String.concat EmptyString chunks
         | None => EmptyString
         end.
Proof.
  intros env_IMAGE env_HOSTS env_RATE URL_new fetch m now req call up
         Hin Hup Hok Hfits events. subst events.
  rewrite (image_handler_fetch_inv env_IMAGE env_HOSTS env_RATE URL_new fetch
             m now req call Hin), Hup.
  unfold ImageProxy.deliver. rewrite Hok, Hfits. cbn [negb].
  unfold response_header. cbn [response_head mbind option_bind snd].
  split; [| split; [| split]].
  - destruct (header_content_length up) as [l |]; [destruct (Js.truthy l) |];
      rewrite ?(lookup_insert_ne _ "Content-Length") by discriminate;
      rewrite lookup_insert_ne by discriminate; apply lookup_insert_eq.
  - destruct (header_content_length up) as [l |]; [destruct (Js.truthy l) |];
      rewrite ?(lookup_insert_ne _ "Content-Length") by discriminate;
      apply lookup_insert_eq.
  - destruct (header_content_length up) as [l |]; [destruct (Js.truthy l) |];
      try apply lookup_insert_eq;
      rewrite !lookup_insert_ne by discriminate; reflexivity.
  - cbn [response_body]. apply pipe_response_body.
Qed.

Lemma gateway_fetches_only_upstream_witness :
  String.eqb (method home_request) "OPTIONS" = false
  /\ fst (RateLimiter.isRateLimited None ∅ 1000 (getIp home_request)) = false
  /\ exists restPath,
       searchParams home_request !! "rest" = Some restPath
       /\ Js.startsWith restPath "komikstation/" = true
       /\ fetch_url (Gateway.upstream_call home_request
                       "https://www.sankavollerei.com/comic/komikstation/home")
          = "https://www.sankavollerei.com/comic/" ++ restPath
       /\ fetch_method (Gateway.upstream_call home_request
                          "https://www.sankavollerei.com/comic/komikstation/home")
          = method home_request
       /\ is_Some ((fun _ : string => Some upstream_url)
                     (fetch_url (Gateway.upstream_call home_request
                        "https://www.sankavollerei.com/comic/komikstation/home"))).
Proof.
  apply (gateway_fetches_only_upstream None None (fun _ => Some upstream_url)
           (fun _ => None) (fun _ => Resolved html_page) "TypeError" ∅ 1000
           home_request).
  vm_compute. left. reflexivity.
Defined.

Lemma image_proxy_fetches_only_checked_targets_witness :
  method (image_request "https://cdn.example.com/covers/a.jpg") = "GET"
  /\ fst (RateLimiter.isRateLimited None ∅ 1000
            (getIp (image_request "https://cdn.example.com/covers/a.jpg"))) = false
  /\ exists targetUrl urlObj,
       searchParams (image_request "https://cdn.example.com/covers/a.jpg") !! "url"
       = Some targetUrl
       /\ fetch_url (ImageProxy.upstream_call "https://cdn.example.com/covers/a.jpg")
          = targetUrl
       /\ fetch_method (ImageProxy.upstream_call "https://cdn.example.com/covers/a.jpg")
          = "GET"
       /\ (fun _ : string => Some cdn_url) targetUrl = Some urlObj
       /\ (protocol urlObj = "http:" \/ protocol urlObj = "https:")
       /\ SsrfGuard.isPrivateTarget (hostname urlObj) = false
       /\ ImageProxy.not_allowed None (hostname urlObj) = false.
Proof.
  apply (image_proxy_fetches_only_checked_targets None None None
           (fun _ => Some cdn_url) (fun _ => Resolved partial_image) ∅ 1000
           (image_request "https://cdn.example.com/covers/a.jpg")).
  vm_compute. left. reflexivity.
Defined.

Lemma non_json_answer_is_passed_through_witness :
  let events := snd (Gateway.handler None None (fun _ => Some upstream_url)
                       (fun _ => None) (fun _ => Resolved html_page) "TypeError"
                       ∅ 1000 home_request) in
  (exists headers,
      events = Fetch (Gateway.upstream_call home_request
                        "https://www.sankavollerei.com/comic/komikstation/home")
               :: WriteHead (status html_page) headers :: pipe (body html_page))
  /\ response_header "Content-Type" events
     = Some (Js.or_else (header_content_type html_page) "application/octet-stream")
  /\ response_header "Content-Length" events = header_content_length html_page
  /\ response_body events = Gateway.text_of html_page.
Proof.
  apply (non_json_answer_is_passed_through None None (fun _ => Some upstream_url)
           (fun _ => None) (fun _ => Resolved html_page) "TypeError" ∅ 1000
           home_request
           (Gateway.upstream_call home_request
              "https://www.sankavollerei.com/comic/komikstation/home")
           html_page).
  - vm_compute. left. reflexivity.
  - reflexivity.
  - vm_compute. reflexivity.
Defined.

Lemma parsed_json_is_rewritten_and_sent_witness :
  exists u,
    (fun _ : string => Some upstream_url)
      (fetch_url (Gateway.upstream_call home_request
                    "https://www.sankavollerei.com/comic/komikstation/home"))
    = Some u
    /\ snd (Gateway.handler None None (fun _ => Some upstream_url)
              (fun _ => Some catalog_tree) (fun _ => Resolved created_json)
              "TypeError" ∅ 1000 home_request)
       = [Fetch (Gateway.upstream_call home_request
                   "https://www.sankavollerei.com/comic/komikstation/home");
          WriteHead (status created_json)
            (<["Content-Type" := "application/json; charset=utf-8"]>
               Gateway.CORS_HEADERS);
          End (Some (stringify
                       (Gateway.recursiveRewrite (fun _ => Some upstream_url)
                          catalog_tree (origin u))))].
Proof.
  apply (parsed_json_is_rewritten_and_sent None None (fun _ => Some upstream_url)
           (fun _ => Some catalog_tree) (fun _ => Resolved created_json)
           "TypeError" ∅ 1000 home_request
           (Gateway.upstream_call home_request
              "https://www.sankavollerei.com/comic/komikstation/home")
           created_json catalog_tree).
  - vm_compute. left. reflexivity.
  - reflexivity.
  - vm_compute. reflexivity.
  - vm_compute. reflexivity.
  - reflexivity.
Defined.

Lemma gateway_error_answers_witness :
  Gateway.handler None (Some "0") (fun _ => Some upstream_url) (fun _ => None)
    (fun _ => Resolved html_page) "TypeError" ∅ 1000 home_request
  = (∅, [WriteHead 429 (<["Content-Type" := "application/json"]> Gateway.CORS_HEADERS);
         End (Some (Js.with_dquotes
           "{'success':false,'error':'Rate limit exceeded','code':429}"))]).
Proof.
  refine (proj1 (gateway_error_answers None (Some "0") (fun _ => Some upstream_url)
                   (fun _ => None) (fun _ => Resolved html_page) "TypeError" ∅ 1000
                   home_request _) _).
  - reflexivity.
  - vm_compute. reflexivity.
Defined.

Lemma image_proxy_validation_answers_witness :
  snd (ImageProxy.handler None None None (fun _ => Some ftp_url)
         (fun _ => Resolved partial_image) ∅ 1000
         (image_request "ftp://files.example.com/a.png"))
  = ImageProxy.sendError (image_request "ftp://files.example.com/a.png") 400
      "Invalid protocol. Only http and https are allowed.".
Proof.
  refine (proj1 (proj2 (proj2 (image_proxy_validation_answers None None None
                   (fun _ => Some ftp_url) (fun _ => Resolved partial_image) ∅ 1000
                   (image_request "ftp://files.example.com/a.png")
                   _ _))) ftp_url _ _ _ _).
  - reflexivity.
  - vm_compute. reflexivity.
  - discriminate.
  - reflexivity.
  - discriminate.
  - discriminate.
Defined.


Lemma image_success_headers_and_body_witness :
  let events :=
    snd (ImageProxy.handler None None None (fun _ => Some cdn_url)
           (fun _ => Resolved partial_image) ∅ 1000
           (image_request "https://cdn.example.com/covers/a.jpg")) in
  response_header "Content-Type" events = Some "image/jpeg"
  /\ response_header "Cache-Control" events = Some "public, max-age=86400"
  /\ response_header "Content-Length" events = Some "5"
  /\ response_body events = "abcde".
Proof.
  apply (image_success_headers_and_body None None None (fun _ => Some cdn_url)
           (fun _ => Resolved partial_image) ∅ 1000
           (image_request "https://cdn.example.com/covers/a.jpg")
           (ImageProxy.upstream_call "https://cdn.example.com/covers/a.jpg")
           partial_image).
  - vm_compute. left. reflexivity.
  - reflexivity.
  - reflexivity.
  - vm_compute. reflexivity.
Defined.

Example huge_image_is_refused :
  snd (ImageProxy.handler None None None (fun _ => Some cdn_url)
         (fun _ => Resolved huge_image) ∅ 1000
         (image_request "https://cdn.example.com/covers/a.jpg"))
  = Fetch (ImageProxy.upstream_call "https://cdn.example.com/covers/a.jpg")
    :: ImageProxy.sendError (image_request "https://cdn.example.com/covers/a.jpg")
         413 "Image size (20971520 bytes) exceeds limit (10485760 bytes)".
Proof. vm_compute. reflexivity. Qed.
